(** * ecommerce-nestjs-api: user service, exception filter, response interceptor

  A shallow embedding of
  - [UserService] (create / findById / findByEmail / findAll / update / remove),
  - [HttpExceptionFilter] (catch, formatValidationErrors),
  - [TransformResponseInterceptor] (intercept),
  together with the constants they use, and the properties of the
  specification settled against them. *)

From Stdlib Require Import ZArith Ascii String.
From stdpp Require Import gmap strings list fin_maps pretty.

Open Scope string_scope.

(** A JavaScript [Date], as its number of milliseconds since the epoch. *)
Definition Date := Z.

(** The JavaScript values the sources tell apart: what the filter reads
  under the [message] property of an exception's response, and what a
  handler may return.  An array is an array of strings, as the validation
  pipe builds it; arrays with other items are not modelled. *)
Inductive JsValue :=
  | JsUndefined
  | JsNull
  | JsBoolean (b : bool)
  | JsNumber (n : Z)
  | JsString (s : string)
  | JsArray (items : list string)
  | JsObject.

(** Truthiness, as [||] tests it. *)
Definition truthy (v : JsValue) : bool :=
  match v with
  | JsUndefined | JsNull => false
  | JsBoolean b => b
  | JsNumber n => negb (n =? 0)%Z
  | JsString s => negb (bool_decide (s = EmptyString))
  | JsArray _ | JsObject => true
  end.

(** ** src/common/constants *)

Module ErrorMessage.
Definition INTERNAL_SERVER_ERROR : string := "Internal server error".
Definition VALIDATION_FAILED : string := "Validation failed".
Definition BAD_REQUEST : string := "Bad request".
Definition GENERIC_ERROR : string := "Error".
Definition RESOURCE_ALREADY_EXISTS : string := "Resource already exists".
Definition RELATED_RESOURCE_NOT_FOUND : string := "Related resource not found".
Definition RESOURCE_NOT_FOUND : string := "Resource not found".
End ErrorMessage.

Module PrismaErrorCode.
Definition UNIQUE_CONSTRAINT : string := "P2002".
Definition FOREIGN_KEY_CONSTRAINT : string := "P2003".
Definition RECORD_NOT_FOUND : string := "P2025".
End PrismaErrorCode.

(** The members of the framework's [HttpStatus] enum that the sources use. *)
Module HttpStatus.
Definition BAD_REQUEST : Z := 400.
Definition NOT_FOUND : Z := 404.
Definition CONFLICT : Z := 409.
Definition INTERNAL_SERVER_ERROR : Z := 500.
End HttpStatus.

(** ** The user table and the ORM client *)

(** Modelled from the spec: the [User] model of the Prisma schema (the schema
  and the generated client are not among the sources).  The spec lists the
  columns id, firstName, lastName, email, password and the nullable
  deletedAt.  The id is the primary key, so a table is a finite map from ids
  to the remaining columns. *)
Module User.
Record columns := mk {
  firstName : string;
  lastName : string;
  email : string;
  password : string;
  deletedAt : option Date
}.

Definition t : Type := string * columns.

Definition id (u : t) : string := u.1.
Definition cols (u : t) : columns := u.2.

#[global] Instance columns_eq_dec : EqDecision columns.
Proof. solve_decision. Defined.
End User.

Abbreviation Table := (gmap string User.columns).

Module CreateUserDto.
Record t := mk {
  firstName : string;
  lastName : string;
  email : string;
  password : string
}.
End CreateUserDto.

(** Modelled from the spec: [UpdateUserDto] (src/user/dto/update-user.dto.ts
  is not among the sources).  The spec calls the argument of update a
  partial-field patch whose provided fields are merged into the row; the
  fields are those of the creation input, each one optional. *)
Module UpdateUserDto.
Record t := mk {
  firstName : option string;
  lastName : option string;
  email : option string;
  password : option string
}.
End UpdateUserDto.

(** What a service method can throw. *)
Inductive Exception :=
  | ConflictException (message : string)
  | NotFoundException (message : string)
  | PrismaClientKnownRequestError (code : string).

Inductive Result (A : Type) :=
  | Ok (a : A)
  | Throw (e : Exception).
Arguments Ok {A} a.
Arguments Throw {A} e.

(** An [async] method over the table: it returns or throws, and leaves a
  table behind. *)
Definition Async (A : Type) : Type := Table → Result A * Table.

Definition resolve {A} (a : A) : Async A := λ tbl, (Ok a, tbl).
Definition throw {A} (e : Exception) : Async A := λ tbl, (Throw e, tbl).
Definition await {A B} (c : Async A) (k : A → Async B) : Async B :=
  λ tbl, match c tbl with
         | (Ok a, tbl') => k a tbl'
         | (Throw e, tbl') => (Throw e, tbl')
         end.

Notation "'let!' x := c 'in' k" := (await c (λ x, k))
  (at level 10, x name, c at level 100, k at level 200, only parsing).

(** Modelled from the spec: the ORM client calls the service makes
  ([prisma.user.findFirst], [findMany], [create], [update]); the client
  itself is not among the sources.  Strings are compared exactly (case
  sensitively), and the table carries no constraint on email of its own. *)
Module Prisma.
(** [where] clauses: an absent field does not filter;
    [deletedAt := Some None] is the source's [deletedAt: null]. *)
Record UserWhereInput := mkWhere {
  id : option string;
  email : option string;
  deletedAt : option (option Date)
}.

Definition matches (w : UserWhereInput) (u : User.t) : bool :=
  match id w with Some i => bool_decide (User.id u = i) | None => true end
  && match email w with
     | Some e => bool_decide (User.email (User.cols u) = e)
     | None => true
     end
  && match deletedAt w with
     | Some d => bool_decide (User.deletedAt (User.cols u) = d)
     | None => true
     end.

Definition findFirst (w : UserWhereInput) : Async (option User.t) :=
  λ tbl, (Ok (List.find (matches w) (map_to_list tbl)), tbl).

Definition findMany (w : UserWhereInput) : Async (list User.t) :=
  λ tbl, (Ok (List.filter (matches w) (map_to_list tbl)), tbl).

Record UserCreateInput := mkCreate {
  c_firstName : string;
  c_lastName : string;
  c_email : string;
  c_password : string
}.

(** The new row gets an id no row of the table has, and a null deletedAt. *)
Definition create (data : UserCreateInput) : Async User.t :=
  λ tbl,
    let i := fresh (dom tbl) in
    let r := User.mk (c_firstName data) (c_lastName data) (c_email data)
                     (c_password data) None in
    (Ok (i, r), <[i := r]> tbl).

(** [data] of an update: an absent field is left as it is. *)
Record UserUpdateInput := mkUpdate {
  u_firstName : option string;
  u_lastName : option string;
  u_email : option string;
  u_password : option string;
  u_deletedAt : option (option Date)
}.

Definition apply_update (data : UserUpdateInput) (r : User.columns)
  : User.columns :=
  User.mk (default (User.firstName r) (u_firstName data))
          (default (User.lastName r) (u_lastName data))
          (default (User.email r) (u_email data))
          (default (User.password r) (u_password data))
          (default (User.deletedAt r) (u_deletedAt data)).

(** [update] takes a unique [where]: the id, and optionally a filter on
  that row's deletedAt.  With no such row it throws the record-not-found
  error. *)
Record UserWhereUniqueInput := mkUnique {
  uw_id : string;
  uw_deletedAt : option (option Date)
}.

Definition update (w : UserWhereUniqueInput) (data : UserUpdateInput)
  : Async User.t :=
  λ tbl,
    let i := uw_id w in
    match tbl !! i with
    | Some r =>
        if matches (mkWhere (Some i) None (uw_deletedAt w)) (i, r)
        then let r' := apply_update data r in (Ok (i, r'), <[i := r']> tbl)
        else (Throw (PrismaClientKnownRequestError
                       PrismaErrorCode.RECORD_NOT_FOUND), tbl)
    | None => (Throw (PrismaClientKnownRequestError
                        PrismaErrorCode.RECORD_NOT_FOUND), tbl)
    end.
End Prisma.

(** ** UserService *)

Module UserService.
Section Service.
(** [bcrypt.hash(password, rounds)] draws a salt and hashes with it; the
    hash function is kept abstract and the salt drawn is an input. *)
Variable bcrypt_hash : string → N → string → string.

Definition create (salt : string) (dto : CreateUserDto.t) : Async User.t :=
  let! existingUser :=
    Prisma.findFirst
      (Prisma.mkWhere None (Some (CreateUserDto.email dto)) (Some None)) in
  match existingUser with
  | Some _ => throw (ConflictException "Email already exists")
  | None =>
      let hashedPassword := bcrypt_hash (CreateUserDto.password dto) 10 salt in
      Prisma.create
        (Prisma.mkCreate (CreateUserDto.firstName dto)
                         (CreateUserDto.lastName dto)
                         (CreateUserDto.email dto)
                         hashedPassword)
  end.

Definition findById (id : string) : Async User.t :=
  let! user := Prisma.findFirst (Prisma.mkWhere (Some id) None (Some None)) in
  match user with
  | None => throw (NotFoundException "User was not found")
  | Some u => resolve u
  end.

Definition findByEmail (email : string) : Async (option User.t) :=
  Prisma.findFirst (Prisma.mkWhere None (Some email) (Some None)).

Definition findAll : Async (list User.t) :=
  Prisma.findMany (Prisma.mkWhere None None (Some None)).

Definition update (id : string) (dto : UpdateUserDto.t) : Async User.t :=
  let! user := Prisma.findFirst (Prisma.mkWhere (Some id) None (Some None)) in
  match user with
  | None => throw (NotFoundException "User was not found")
  | Some _ =>
      Prisma.update (Prisma.mkUnique id None)
        (Prisma.mkUpdate (UpdateUserDto.firstName dto)
                         (UpdateUserDto.lastName dto)
                         (UpdateUserDto.email dto)
                         (UpdateUserDto.password dto)
                         None)
  end.

Definition remove (now : Date) (id : string) : Async unit :=
  let! user := Prisma.findFirst (Prisma.mkWhere (Some id) None (Some None)) in
  match user with
  | None => throw (NotFoundException "User was not found")
  | Some _ =>
      let! _ := Prisma.update (Prisma.mkUnique id (Some None))
                  (Prisma.mkUpdate None None None None (Some (Some now))) in
      resolve tt
  end.

(** The exceptions the service throws. *)
Definition not_found : Exception := NotFoundException "User was not found".
Definition conflict : Exception := ConflictException "Email already exists".

(** The row [create] stores for an input. *)
Definition created_row (salt : string) (dto : CreateUserDto.t) : User.columns :=
  User.mk (CreateUserDto.firstName dto) (CreateUserDto.lastName dto)
          (CreateUserDto.email dto)
          (bcrypt_hash (CreateUserDto.password dto) 10 salt) None.

(** [r] with its deletedAt set, and nothing else changed. *)
Definition soft_deleted (now : Date) (r : User.columns) : User.columns :=
  User.mk (User.firstName r) (User.lastName r) (User.email r)
          (User.password r) (Some now).

(** Some non-deleted row of the table has the email [e]. *)
Definition email_taken (e : string) (tbl : Table) : Prop :=
  ∃ i r, tbl !! i = Some r ∧ User.deletedAt r = None ∧ User.email r = e.

(** *** Sequences of service calls *)

Inductive Call :=
  | CallCreate (salt : string) (dto : CreateUserDto.t)
  | CallFindById (id : string)
  | CallFindByEmail (email : string)
  | CallFindAll
  | CallUpdate (id : string) (dto : UpdateUserDto.t)
  | CallRemove (now : Date) (id : string).

(** The table a call leaves behind, whatever it returned or threw. *)
Definition exec (c : Call) (tbl : Table) : Table :=
  match c with
  | CallCreate salt dto => (create salt dto tbl).2
  | CallFindById id => (findById id tbl).2
  | CallFindByEmail email => (findByEmail email tbl).2
  | CallFindAll => (findAll tbl).2
  | CallUpdate id dto => (update id dto tbl).2
  | CallRemove now id => (remove now id tbl).2
  end.

Definition run (cs : list Call) (tbl : Table) : Table :=
  fold_left (λ t c, exec c t) cs tbl.

(** The calls that write: the invariant of the spec is stated over them. *)
Definition writes (c : Call) : bool :=
  match c with
  | CallCreate _ _ | CallUpdate _ _ | CallRemove _ _ => true
  | _ => false
  end.

(** A row that is not soft-deleted. *)
Definition active (r : User.columns) : Prop := User.deletedAt r = None.

(** At most one non-deleted user per email. *)
Definition unique_active_email (tbl : Table) : Prop :=
  ∀ i j r s,
    tbl !! i = Some r → tbl !! j = Some s →
    active r → active s → User.email r = User.email s → i = j.

(** A call that cannot change the email of a stored row: every call but an
  update whose patch carries an email. *)
Definition keeps_emails (c : Call) : Prop :=
  match c with
  | CallUpdate _ dto => UpdateUserDto.email dto = None
  | _ => True
  end.

(** Two registrations under different emails, then a patch that gives the
  second user the email of the first. *)
Definition email_clash_calls : list Call :=
  [ CallCreate "salt0"
      (CreateUserDto.mk "Ann" "Lee" "ann@example.com" "password1");
    CallCreate "salt1"
      (CreateUserDto.mk "Bob" "Ray" "bob@example.com" "password2");
    CallUpdate "1"
      (UpdateUserDto.mk None None (Some "ann@example.com") None) ].
(** What a call throws, if it throws. *)
Definition thrown {A} (out : Result A * Table) : option Exception :=
  match out.1 with
  | Throw e => Some e
  | Ok _ => None
  end.

Definition exception_of (c : Call) (tbl : Table) : option Exception :=
  match c with
  | CallCreate salt dto => thrown (create salt dto tbl)
  | CallFindById id => thrown (findById id tbl)
  | CallFindByEmail email => thrown (findByEmail email tbl)
  | CallFindAll => thrown (findAll tbl)
  | CallUpdate id dto => thrown (update id dto tbl)
  | CallRemove now id => thrown (remove now id tbl)
  end.
End Service.
End UserService.

(** ** HttpExceptionFilter *)

Module HttpExceptionFilter.

(** [exception.getResponse()]: a string, or an object that has a [message]
  property or has none. *)
Inductive ExceptionResponse :=
  | ResponseString (s : string)
  | ResponseObject (message : option JsValue).

(** What [catch] can be handed, by the [instanceof] tests it makes.  A
  [BadRequestException] has status 400; [HttpException] stands for every
  other framework exception, with its own status. *)
Inductive Thrown :=
  | BadRequestException (response : ExceptionResponse)
  | HttpException (status : Z) (response : ExceptionResponse)
  | PrismaClientKnownRequestError (code : string)
  | PrismaClientValidationError (message : string)
  | OtherError (description : string).

(** A call that returns, or dies on a [TypeError]. *)
Inductive Completion (A : Type) :=
  | Normal (a : A)
  | TypeError.
Arguments Normal {A} a.
Arguments TypeError {A}.

(** [s.split(sep)] for a one-character separator. *)
Fixpoint split (sep : ascii) (s : string) : list string :=
  match s with
  | EmptyString => [EmptyString]
  | String c rest =>
      if bool_decide (c = sep) then EmptyString :: split sep rest
      else match split sep rest with
           | h :: t => String c h :: t
           | [] => [String c EmptyString]
           end
  end.

(** [msg.split(' ')[0]]; an index out of range would read [undefined],
  which as a property key is the string "undefined". *)
Definition field_of (msg : string) : string :=
  match split " " msg with
  | f :: _ => f
  | [] => "undefined"
  end.

(** The properties every object literal inherits from [Object.prototype]:
  reading one of them on [{}] gives a function (for [__proto__], the
  prototype object), not [undefined]. *)
Definition Object_prototype : list string :=
  [ "constructor"; "__defineGetter__"; "__defineSetter__"; "hasOwnProperty";
    "__lookupGetter__"; "__lookupSetter__"; "isPrototypeOf";
    "propertyIsEnumerable"; "toString"; "valueOf"; "__proto__";
    "toLocaleString" ].

Definition inherited (key : string) : bool :=
  bool_decide (key ∈ Object_prototype).

(** One turn of the loop of [formatValidationErrors], on the own
  properties of [errors].  An own property is an array, which is truthy,
  and the message is pushed onto it.  With no own property the read falls
  through to the prototype: [undefined] makes the code store a new array
  first; an inherited value is truthy, is kept, and has no [push]. *)
Definition format_step (errors : gmap string (list string)) (msg : string)
  : Completion (gmap string (list string)) :=
  let field := field_of msg in
  match errors !! field with
  | Some arr => Normal (<[field := (arr ++ [msg])%list]> errors)
  | None =>
      if inherited field then TypeError
      else Normal (<[field := [msg]]> errors)
  end.

Fixpoint format_loop (messages : list string)
  (errors : gmap string (list string))
  : Completion (gmap string (list string)) :=
  match messages with
  | [] => Normal errors
  | msg :: rest =>
      match format_step errors msg with
      | Normal errors' => format_loop rest errors'
      | TypeError => TypeError
      end
  end.

Definition formatValidationErrors (messages : list string)
  : Completion (gmap string (list string)) :=
  format_loop messages ∅.

(** What the loop adds to the messages [own] already stored under a key. *)
Definition appended (own : option (list string)) (new : list string)
  : option (list string) :=
  match own, new with
  | None, [] => None
  | None, _ => Some new
  | Some arr, _ => Some (arr ++ new)%list
  end.

(** [errors] groups [messages] by [key]: a key that occurs holds the
  messages with that key, in their order; no other key is present. *)
Definition grouped_by (key : string → string) (messages : list string)
  (errors : gmap string (list string)) : Prop :=
  ∀ k, errors !! k
       = match List.filter (λ m, bool_decide (key m = k)) messages with
         | [] => None
         | l => Some l
         end.

Fixpoint contains (c : ascii) (s : string) : bool :=
  match s with
  | EmptyString => false
  | String c' rest => bool_decide (c' = c) || contains c rest
  end.

(** The key in the words of the spec: the first whitespace-separated token
  of a message, where whitespace is a space, a tab, a line feed, a vertical
  tab, a form feed or a carriage return. *)
Definition is_whitespace (c : ascii) : bool :=
  bool_decide (c ∈ [" "%char; "009"%char; "010"%char; "011"%char;
                    "012"%char; "013"%char]).

Fixpoint take_token (s : string) : string :=
  match s with
  | EmptyString => EmptyString
  | String c rest => if is_whitespace c then EmptyString else String c (take_token rest)
  end.

Fixpoint first_whitespace_token (s : string) : string :=
  match s with
  | EmptyString => EmptyString
  | String c rest =>
      if is_whitespace c then first_whitespace_token rest else take_token s
  end.

(** The grouping as the spec words it: [formatValidationErrors] returns the
  record that groups the messages by their first whitespace-separated
  token. *)
Definition groups_by_first_token (messages : list string) : Prop :=
  ∃ errors, formatValidationErrors messages = Normal errors
            ∧ grouped_by first_whitespace_token messages errors.

(** A validation message with a tab after the field name. *)
Definition tab_message : string :=
  "email" ++ String "009" "must be an email".

(** The body [catch] sends. *)
Record ErrorBody := mkBody {
  success : bool;
  statusCode : Z;
  message : JsValue;
  errors : option (gmap string (list string));
  timestamp : string;
  path : string
}.

(** What [catch] does: the status and body passed to the response, and
  the first argument of each [logger.error] call. *)
Record Sent := mkSent {
  status : Z;
  body : ErrorBody;
  logged : list string
}.

(** The number of messages a record holds, over all its keys. *)
Definition stored_count (errors : gmap string (list string)) : nat :=
  sum_list_with (λ kv : string * list string, length kv.2) (map_to_list errors).

(** The exceptions of the framework: [HttpException] and its subclasses. *)
Definition is_http (exception : Thrown) : bool :=
  match exception with
  | BadRequestException _ | HttpException _ _ => true
  | _ => false
  end.

(** [pieces.join(sep)], the inverse of [split]. *)
Fixpoint join (sep : ascii) (pieces : list string) : string :=
  match pieces with
  | [] => EmptyString
  | [p] => p
  | p :: rest => p ++ String sep (join sep rest)
  end.

(** The number of occurrences of a character. *)
Fixpoint occurrences (c : ascii) (s : string) : nat :=
  match s with
  | EmptyString => 0
  | String c' rest =>
      (if bool_decide (c' = c) then 1 else 0) + occurrences c rest
  end.

Section Filter.
Variable toISOString : Date → string.

(** The assignments of [catch] to [statusCode], [message], [errors]. *)
Definition classify (exception : Thrown)
  : Completion (Z * JsValue * option (gmap string (list string)) * list string) :=
  let statusCode := HttpStatus.INTERNAL_SERVER_ERROR in
  let message := JsString ErrorMessage.INTERNAL_SERVER_ERROR in
  let errors : option (gmap string (list string)) := None in
  let other_http (statusCode : Z) (exceptionResponse : ExceptionResponse) :=
    match exceptionResponse with
    | ResponseString s => Normal (statusCode, JsString s, errors, [])
    | ResponseObject m =>
        let msg := default JsUndefined m in
        Normal (statusCode,
                if truthy msg then msg else JsString ErrorMessage.GENERIC_ERROR,
                errors, [])
    end in
  match exception with
  | BadRequestException exceptionResponse =>
      let statusCode := HttpStatus.BAD_REQUEST in
      match exceptionResponse with
      | ResponseObject (Some msg) =>
          match msg with
          | JsArray items =>
              match formatValidationErrors items with
              | Normal grouped =>
                  Normal (statusCode, JsString ErrorMessage.VALIDATION_FAILED,
                          Some grouped, [])
              | TypeError => TypeError
              end
          | JsString s => Normal (statusCode, JsString s, errors, [])
          | _ => Normal (statusCode, JsString ErrorMessage.BAD_REQUEST, errors, [])
          end
      | _ => other_http statusCode exceptionResponse
      end
  | HttpException statusCode exceptionResponse =>
      other_http statusCode exceptionResponse
  | PrismaClientKnownRequestError code =>
      if bool_decide (code = PrismaErrorCode.UNIQUE_CONSTRAINT) then
        Normal (HttpStatus.CONFLICT,
                JsString ErrorMessage.RESOURCE_ALREADY_EXISTS, errors, [])
      else if bool_decide (code = PrismaErrorCode.FOREIGN_KEY_CONSTRAINT) then
        Normal (HttpStatus.BAD_REQUEST,
                JsString ErrorMessage.RELATED_RESOURCE_NOT_FOUND, errors, [])
      else if bool_decide (code = PrismaErrorCode.RECORD_NOT_FOUND) then
        Normal (HttpStatus.NOT_FOUND,
                JsString ErrorMessage.RESOURCE_NOT_FOUND, errors, [])
      else
        Normal (statusCode, message, errors, ["Unhandled Prisma error:"])
  | PrismaClientValidationError _ =>
      Normal (statusCode, message, errors,
              ["Prisma validation error (bug in code):"])
  | OtherError _ =>
      Normal (statusCode, message, errors, ["Unhandled exception:"])
  end.

Definition catch (exception : Thrown) (url : string) (now : Date)
  : Completion Sent :=
  match classify exception with
  | Normal (statusCode, message, errors, logged) =>
      Normal (mkSent statusCode
                (mkBody false statusCode message errors (toISOString now) url)
                logged)
  | TypeError => TypeError
  end.
(** The validation case: a [BadRequestException] whose response object has
  an array under [message]. *)
Definition validation_case (exception : Thrown) : Prop :=
  ∃ items,
    exception = BadRequestException (ResponseObject (Some (JsArray items))).
End Filter.
End HttpExceptionFilter.

(** ** TransformResponseInterceptor *)

Module TransformResponseInterceptor.

(** The metadata stored under [SKIP_TRANSFORM_KEY] on the handler and on its
  class, as the reflector reads it: [None] is [undefined]. *)
Record ExecutionContext := mkContext {
  handlerMetadata : option bool;
  classMetadata : option bool
}.

(** Modelled from the spec: the skip-transform decorator
  (src/common/decorators/skip-transform.decorator.ts is not among the
  sources).  The spec calls it a marker on a handler or a class: a marked
  target carries [true] under the key, an unmarked one carries nothing. *)
Definition marker (marked : bool) : option bool :=
  if marked then Some true else None.

Definition context_of (onHandler onClass : bool) : ExecutionContext :=
  mkContext (marker onHandler) (marker onClass).

(** [reflector.getAllAndOverride(key, targets)]: the first value that is
  not [undefined]. *)
Fixpoint getAllAndOverride (targets : list (option bool)) : option bool :=
  match targets with
  | [] => None
  | Some v :: _ => Some v
  | None :: rest => getAllAndOverride rest
  end.

(** An observable, as the values it emits, each with the clock's reading
  when it is emitted. *)
Definition Observable (T : Type) : Type := list (Date * T).

Record Envelope (T : Type) := mkEnvelope {
  success : bool;
  data : T;
  timestamp : string
}.
Arguments mkEnvelope {T}.
Arguments success {T}.
Arguments data {T}.
Arguments timestamp {T}.

(** What the intercepted stream emits: the handler's value, or an envelope
  around it. *)
Inductive Emitted (T : Type) :=
  | Raw (value : T)
  | Wrapped (envelope : Envelope T).
Arguments Raw {T}.
Arguments Wrapped {T}.

(** The handler's value inside what the intercepted stream emits. *)
Definition payload {T} (e : Emitted T) : T :=
  match e with
  | Raw value => value
  | Wrapped envelope => data envelope
  end.

Section Interceptor.
Variable toISOString : Date → string.
Context {T : Type}.

Definition pipe_map {A B} (f : Date → A → B) (source : Observable A)
  : Observable B :=
  List.map (λ '(now, x), (now, f now x)) source.

(** A value in its envelope, as the interceptor builds it at a moment. *)
Definition wrap_at (now : Date) (value : T) : Emitted T :=
  Wrapped (mkEnvelope true value (toISOString now)).

Definition intercept (context : ExecutionContext) (next : Observable T)
  : Observable (Emitted T) :=
  let skip :=
    getAllAndOverride [handlerMetadata context; classMetadata context] in
  match skip with
  | Some true => pipe_map (λ _ data, Raw data) next
  | _ =>
      pipe_map (λ now data, Wrapped (mkEnvelope true data (toISOString now)))
               next
  end.
End Interceptor.
End TransformResponseInterceptor.

(** ** src/config/configuration.ts *)

Module Configuration.

(** The numbers [parseInt] returns here.  An integer of magnitude at most
  2^53 is a double exactly; a longer digit string gives some larger double,
  whose value is not tracked. *)
Inductive JsNum :=
  | NaN
  | Int (n : Z)
  | Huge (negative : bool).

(** Truthiness of a number: [NaN] and zero (of either sign) are falsy. *)
Definition num_truthy (x : JsNum) : bool :=
  match x with
  | NaN => false
  | Int n => negb (n =? 0)%Z
  | Huge _ => true
  end.

Definition code (c : ascii) : N := N_of_ascii c.

(** The white space and line terminators [parseInt] skips, in the UTF-8
  encoding of the environment: one leading such character removed. *)
Definition strip_whitespace_char (s : string) : option string :=
  match s with
  | String a r1 =>
      if bool_decide (code a ∈ [9; 10; 11; 12; 13; 32]%N) then Some r1
      else
        match r1 with
        | String b r2 =>
            if bool_decide (code a = 194%N ∧ code b = 160%N) then Some r2
            else
              match r2 with
              | String c r3 =>
                  if bool_decide
                       ((code a, code b, code c)
                        ∈ [ (225, 154, 128); (226, 128, 128); (226, 128, 129);
                            (226, 128, 130); (226, 128, 131); (226, 128, 132);
                            (226, 128, 133); (226, 128, 134); (226, 128, 135);
                            (226, 128, 136); (226, 128, 137); (226, 128, 138);
                            (226, 128, 168); (226, 128, 169); (226, 128, 175);
                            (226, 129, 159); (227, 128, 128);
                            (239, 187, 191) ]%N)
                  then Some r3 else None
              | EmptyString => None
              end
        | EmptyString => None
        end
  | EmptyString => None
  end.

Fixpoint trim_fuel (fuel : nat) (s : string) : string :=
  match fuel with
  | O => s
  | S fuel' =>
      match strip_whitespace_char s with
      | Some rest => trim_fuel fuel' rest
      | None => s
      end
  end.

(** Every removal shortens the string, so its length is fuel enough. *)
Definition trimStart (s : string) : string := trim_fuel (String.length s) s.

Definition digit_of (c : ascii) : option Z :=
  let n := Z.of_N (code c) in
  if (48 <=? n)%Z && (n <=? 57)%Z then Some (n - 48)%Z else None.

(** The decimal digits a string begins with. *)
Fixpoint leading_digits (s : string) : list Z :=
  match s with
  | EmptyString => []
  | String c rest =>
      match digit_of c with
      | Some d => d :: leading_digits rest
      | None => []
      end
  end.

Definition decimal_value (digits : list Z) : Z :=
  fold_left (λ acc d, 10 * acc + d)%Z digits 0%Z.

(** [parseInt(s, 10)]: skip white space, read a sign, read the digits that
  follow; with no digit the result is [NaN]. *)
Definition parseInt10 (s : string) : JsNum :=
  let trimmed := trimStart s in
  let '(negative, unsigned) :=
    match trimmed with
    | String c rest =>
        if bool_decide (c = "-"%char) then (true, rest)
        else if bool_decide (c = "+"%char) then (false, rest)
        else (false, trimmed)
    | EmptyString => (false, trimmed)
    end in
  match leading_digits unsigned with
  | [] => NaN
  | digits =>
      let n := decimal_value digits in
      if (n <=? 2 ^ 53)%Z then Int (if negative then - n else n)%Z
      else Huge negative
  end.

(** Whether a string begins with a decimal digit. *)
Definition starts_with_digit (s : string) : bool :=
  match s with
  | String c _ => bool_decide (is_Some (digit_of c))
  | EmptyString => false
  end.

(** An optional sign, as text. *)
Inductive Sign := NoSign | Plus | Minus.

Definition sign_text (sg : Sign) : string :=
  match sg with NoSign => EmptyString | Plus => "+" | Minus => "-" end.

Definition signed (sg : Sign) (n : Z) : Z :=
  match sg with Minus => (- n)%Z | _ => n end.

(** [x || fallback] on numbers. *)
Definition or_number (x : JsNum) (fallback : Z) : JsNum :=
  if num_truthy x then x else Int fallback.

Record Config := mkConfig {
  port : JsNum;
  nodeEnv : string;
  database_url : option string;
  jwt_secret : option string;
  jwt_accessExpiration : JsNum;
  jwt_refreshExpiration : JsNum
}.

(** [process.env]: a variable that is not set reads [undefined]. *)
Definition configuration (env : gmap string string) : Config :=
  mkConfig
    (or_number (parseInt10 (default "3000" (env !! "PORT"))) 3000)
    (match env !! "NODE_ENV" with
     | Some v => if bool_decide (v = EmptyString) then "development" else v
     | None => "development"
     end)
    (env !! "DATABASE_URL")
    (env !! "JWT_SECRET")
    (or_number
       (parseInt10 (default EmptyString (env !! "JWT_ACCESS_EXPIRATION")))
       3600)
    (or_number
       (parseInt10 (default EmptyString (env !! "JWT_REFRESH_EXPIRATION")))
       604800).
End Configuration.

(** ** The table with its constraint on email *)

(** Modelled from the spec: the constraint of the users table on email (the
  Prisma schema is not among the sources).  The spec gives the column as
  "unique among non-deleted rows", and the filter names a duplicate email
  as a cause of the ORM's unique-constraint error.  A write that would
  leave two non-deleted rows with one email is refused with that error,
  and writes nothing. *)
Module UniqueEmail.

(** Writing [r] under [i] would clash: [r] is not soft-deleted, and a
  non-deleted row under another id has its email. *)
Definition clashes (i : string) (r : User.columns) (tbl : Table) : bool :=
  bool_decide (User.deletedAt r = None)
  && existsb
       (λ u, bool_decide (User.id u ≠ i)
             && bool_decide (User.deletedAt (User.cols u) = None)
             && bool_decide (User.email (User.cols u) = User.email r))
       (map_to_list tbl).

(** A write of the client, under the constraint. *)
Definition checked (write : Async User.t) : Async User.t :=
  λ tbl,
    match write tbl with
    | (Ok u, tbl') =>
        if clashes (User.id u) (User.cols u) tbl
        then (Throw (PrismaClientKnownRequestError
                       PrismaErrorCode.UNIQUE_CONSTRAINT), tbl)
        else (Ok u, tbl')
    | (Throw e, tbl') => (Throw e, tbl')
    end.

Definition create (data : Prisma.UserCreateInput) : Async User.t :=
  checked (Prisma.create data).

Definition update (w : Prisma.UserWhereUniqueInput)
  (data : Prisma.UserUpdateInput) : Async User.t :=
  checked (Prisma.update w data).
End UniqueEmail.

(** [UserService], its writes going to the table with the constraint: the
  text of the methods is the same, the reads are those of [UserService]. *)
Module ConstrainedUserService.
Section Service.
Variable bcrypt_hash : string → N → string → string.

Definition create (salt : string) (dto : CreateUserDto.t) : Async User.t :=
  let! existingUser :=
    Prisma.findFirst
      (Prisma.mkWhere None (Some (CreateUserDto.email dto)) (Some None)) in
  match existingUser with
  | Some _ => throw (ConflictException "Email already exists")
  | None =>
      let hashedPassword := bcrypt_hash (CreateUserDto.password dto) 10 salt in
      UniqueEmail.create
        (Prisma.mkCreate (CreateUserDto.firstName dto)
                         (CreateUserDto.lastName dto)
                         (CreateUserDto.email dto)
                         hashedPassword)
  end.

Definition update (id : string) (dto : UpdateUserDto.t) : Async User.t :=
  let! user := Prisma.findFirst (Prisma.mkWhere (Some id) None (Some None)) in
  match user with
  | None => throw (NotFoundException "User was not found")
  | Some _ =>
      UniqueEmail.update (Prisma.mkUnique id None)
        (Prisma.mkUpdate (UpdateUserDto.firstName dto)
                         (UpdateUserDto.lastName dto)
                         (UpdateUserDto.email dto)
                         (UpdateUserDto.password dto)
                         None)
  end.

Definition remove (now : Date) (id : string) : Async unit :=
  let! user := Prisma.findFirst (Prisma.mkWhere (Some id) None (Some None)) in
  match user with
  | None => throw (NotFoundException "User was not found")
  | Some _ =>
      let! _ := UniqueEmail.update (Prisma.mkUnique id (Some None))
                  (Prisma.mkUpdate None None None None (Some (Some now))) in
      resolve tt
  end.

(** The table a call leaves behind. *)
Definition exec (c : UserService.Call) (tbl : Table) : Table :=
  match c with
  | UserService.CallCreate salt dto => (create salt dto tbl).2
  | UserService.CallFindById id => (UserService.findById id tbl).2
  | UserService.CallFindByEmail email => (UserService.findByEmail email tbl).2
  | UserService.CallFindAll => (UserService.findAll tbl).2
  | UserService.CallUpdate id dto => (update id dto tbl).2
  | UserService.CallRemove now id => (remove now id tbl).2
  end.

Definition run (cs : list UserService.Call) (tbl : Table) : Table :=
  fold_left (λ t c, exec c t) cs tbl.
End Service.
End ConstrainedUserService.

(** ** Sample data, for running the definitions *)

Module Samples.
(** A stand-in for the hash, to run [create] with: not bcrypt. *)
Definition toy_hash (password : string) (rounds : N) (salt : string) : string :=
  "$2b$" ++ salt ++ "$" ++ password.

(** A stand-in for [Date.prototype.toISOString]. *)
Definition toy_iso (now : Date) : string :=
  if (now =? 0)%Z then "1970-01-01T00:00:00.000Z" else "later".

Definition ann : CreateUserDto.t :=
  CreateUserDto.mk "Ann" "Lee" "ann@example.com" "password1".

Definition ann_upper : CreateUserDto.t :=
  CreateUserDto.mk "Ann" "Lee" "ANN@example.com" "password1".

Definition ann_row : User.columns :=
  User.mk "Ann" "Lee" "ann@example.com" "$2b$salt0$password1" None.

Definition ann_gone : User.columns :=
  User.mk "Ann" "Lee" "ann@example.com" "$2b$salt0$password1" (Some 1000%Z).

Definition rename : UpdateUserDto.t :=
  UpdateUserDto.mk (Some "Anna") None None None.

(** One registered user; the same user, soft-deleted. *)
Definition one_user : Table := {[ "0" := ann_row ]}.
Definition one_deleted : Table := {[ "0" := ann_gone ]}.
End Samples.

(** * Properties *)

(** ** The ORM client *)

Section PrismaFacts.
Implicit Types (tbl : Table) (w : Prisma.UserWhereInput) (u : User.t).

Lemma find_rows_Some w tbl u :
  List.find (Prisma.matches w) (map_to_list tbl) = Some u →
  tbl !! User.id u = Some (User.cols u) ∧ Prisma.matches w u = true.
Proof.
  intros [Hin Hm]%find_some. split; [|done].
  apply list_elem_of_In in Hin. destruct u as [i r].
  by apply elem_of_map_to_list in Hin.
Qed.

Lemma find_rows_None w tbl i r :
  List.find (Prisma.matches w) (map_to_list tbl) = None →
  tbl !! i = Some r → Prisma.matches w (i, r) = false.
Proof.
  intros Hnone Hl. apply (find_none _ _ Hnone).
  apply list_elem_of_In. by apply elem_of_map_to_list.
Qed.

Lemma find_rows_is_Some w tbl i r :
  tbl !! i = Some r → Prisma.matches w (i, r) = true →
  is_Some (List.find (Prisma.matches w) (map_to_list tbl)).
Proof.
  intros Hl Hm.
  destruct (List.find _ _) eqn:Hf; [by eexists|].
  rewrite (find_rows_None _ _ _ _ Hf Hl) in Hm. discriminate.
Qed.

Lemma matches_by_id i j r :
  Prisma.matches (Prisma.mkWhere (Some i) None (Some None)) (j, r) = true
  ↔ j = i ∧ User.deletedAt r = None.
Proof.
  unfold Prisma.matches; simpl.
  rewrite andb_true_r, andb_true_iff, !bool_decide_eq_true. done.
Qed.

Lemma matches_by_email e j r :
  Prisma.matches (Prisma.mkWhere None (Some e) (Some None)) (j, r) = true
  ↔ User.email r = e ∧ User.deletedAt r = None.
Proof.
  unfold Prisma.matches; simpl.
  rewrite andb_true_iff, !bool_decide_eq_true. done.
Qed.

Lemma matches_not_deleted j r :
  Prisma.matches (Prisma.mkWhere None None (Some None)) (j, r) = true
  ↔ User.deletedAt r = None.
Proof. unfold Prisma.matches; simpl. by rewrite bool_decide_eq_true. Qed.

(** A lookup by id with [deletedAt: null] finds the row under that id when
  it is not soft-deleted, and nothing otherwise. *)
Lemma find_by_id tbl i :
  List.find (Prisma.matches (Prisma.mkWhere (Some i) None (Some None)))
            (map_to_list tbl)
  = match tbl !! i with
    | Some r => if decide (User.deletedAt r = None) then Some (i, r) else None
    | None => None
    end.
Proof.
  destruct (List.find _ _) as [[j s]|] eqn:Hf.
  - apply find_rows_Some in Hf as [Hl [-> Hd]%matches_by_id]. simpl in Hl.
    rewrite Hl. by rewrite decide_True.
  - destruct (tbl !! i) as [r|] eqn:Hl; [|done].
    case_decide as Hd; [|done].
    pose proof (find_rows_None _ _ _ _ Hf Hl) as Hm.
    assert (Prisma.matches (Prisma.mkWhere (Some i) None (Some None)) (i, r)
            = true) as Ht by by apply matches_by_id.
    congruence.
Qed.
End PrismaFacts.

(** ** UserService *)

Section UserServiceFacts.
Variable bcrypt_hash : string → N → string → string.
Implicit Types (tbl : Table) (r s : User.columns) (i j id : string).

Abbreviation create := (UserService.create bcrypt_hash).
Abbreviation run := (UserService.run bcrypt_hash).
Abbreviation exec := (UserService.exec bcrypt_hash).
Abbreviation created_row := (UserService.created_row bcrypt_hash).
Abbreviation active := UserService.active.
Abbreviation email_taken := UserService.email_taken.
Abbreviation soft_deleted := UserService.soft_deleted.
Abbreviation not_found := UserService.not_found.
Abbreviation conflict := UserService.conflict.

Lemma create_taken salt dto tbl :
  email_taken (CreateUserDto.email dto) tbl →
  create salt dto tbl = (Throw conflict, tbl).
Proof.
  intros (i & r & Hl & Ha & He).
  unfold UserService.create, await, Prisma.findFirst.
  destruct (find_rows_is_Some
              (Prisma.mkWhere None (Some (CreateUserDto.email dto)) (Some None))
              tbl i r Hl) as [u ->]; [|done].
  by apply matches_by_email.
Qed.

Lemma create_free salt dto tbl :
  ¬ email_taken (CreateUserDto.email dto) tbl →
  create salt dto tbl
  = (Ok (fresh (dom tbl), created_row salt dto),
     <[fresh (dom tbl) := created_row salt dto]> tbl).
Proof.
  intros Hfree.
  unfold UserService.create, await, Prisma.findFirst.
  destruct (List.find _ _) as [[j s]|] eqn:Hf; [|done].
  apply find_rows_Some in Hf as [Hl [He Hd]%matches_by_email].
  destruct Hfree. by exists j, s.
Qed.

Lemma fresh_id_unused tbl : tbl !! fresh (dom tbl) = None.
Proof. apply not_elem_of_dom, is_fresh. Qed.

Lemma findById_eq id tbl :
  UserService.findById id tbl
  = match tbl !! id with
    | Some r => if decide (User.deletedAt r = None) then (Ok (id, r), tbl)
                else (Throw not_found, tbl)
    | None => (Throw not_found, tbl)
    end.
Proof.
  unfold UserService.findById, await, Prisma.findFirst.
  rewrite find_by_id. destruct (tbl !! id) as [r|]; [|done].
  by case_decide.
Qed.

Lemma update_eq id dto tbl :
  UserService.update id dto tbl
  = match tbl !! id with
    | Some r =>
        if decide (User.deletedAt r = None)
        then let r' := Prisma.apply_update
                         (Prisma.mkUpdate (UpdateUserDto.firstName dto)
                            (UpdateUserDto.lastName dto)
                            (UpdateUserDto.email dto)
                            (UpdateUserDto.password dto) None) r in
             (Ok (id, r'), <[id := r']> tbl)
        else (Throw not_found, tbl)
    | None => (Throw not_found, tbl)
    end.
Proof.
  unfold UserService.update, await, Prisma.findFirst.
  rewrite find_by_id. destruct (tbl !! id) as [r|] eqn:Hl; [|done].
  case_decide; [|done].
  unfold Prisma.update; simpl. rewrite Hl.
  unfold Prisma.matches; simpl. by rewrite bool_decide_true.
Qed.

Lemma remove_eq now id tbl :
  UserService.remove now id tbl
  = match tbl !! id with
    | Some r =>
        if decide (User.deletedAt r = None)
        then (Ok tt, <[id := soft_deleted now r]> tbl)
        else (Throw not_found, tbl)
    | None => (Throw not_found, tbl)
    end.
Proof.
  unfold UserService.remove, await, Prisma.findFirst.
  rewrite find_by_id. destruct (tbl !! id) as [r|] eqn:Hl; [|done].
  case_decide as Hd; [|done].
  unfold Prisma.update; simpl. rewrite Hl.
  assert (Prisma.matches (Prisma.mkWhere (Some id) None (Some None)) (id, r)
          = true) as -> by by apply matches_by_id.
  done.
Qed.

(** C1. [create] fails with the Conflict exception and leaves the table as it
  was when some non-deleted row has exactly the input's email; otherwise it
  stores one new row, under an id that was unused, whose password is the
  salted hash of the input's password and whose other fields are the
  input's, and returns that row, hash included. *)
Theorem create_conflict_or_persist salt dto tbl :
  (email_taken (CreateUserDto.email dto) tbl →
   create salt dto tbl
   = (Throw (ConflictException "Email already exists"), tbl))
  ∧ (¬ email_taken (CreateUserDto.email dto) tbl →
     ∃ i,
       tbl !! i = None ∧
       let row :=
         {| User.firstName := CreateUserDto.firstName dto;
            User.lastName := CreateUserDto.lastName dto;
            User.email := CreateUserDto.email dto;
            User.password := bcrypt_hash (CreateUserDto.password dto) 10 salt;
            User.deletedAt := None |} in
       create salt dto tbl = (Ok (i, row), <[i := row]> tbl)).
Proof.
  split.
  - apply create_taken.
  - intros Hfree. exists (fresh (dom tbl)). split.
    + apply fresh_id_unused.
    + by apply create_free.
Qed.

Lemma create_table salt dto tbl :
  (create salt dto tbl).2 = tbl
  ∨ (create salt dto tbl).2
    = <[fresh (dom tbl) := created_row salt dto]> tbl.
Proof.
  unfold UserService.create, await, Prisma.findFirst.
  destruct (List.find _ _); [by left | by right].
Qed.

(** *** Soft-deleted rows *)

Lemma create_keeps_rows salt dto tbl i r :
  tbl !! i = Some r → (create salt dto tbl).2 !! i = Some r.
Proof.
  intros Hl. destruct (create_table salt dto tbl) as [-> | ->]; [done|].
  rewrite lookup_insert_ne; [done|].
  intros Heq. pose proof (fresh_id_unused tbl) as Hf. congruence.
Qed.

Lemma findAll_eq tbl :
  UserService.findAll tbl
  = (Ok (List.filter (Prisma.matches (Prisma.mkWhere None None (Some None)))
                     (map_to_list tbl)), tbl).
Proof. reflexivity. Qed.

Lemma findAll_rows tbl l u :
  UserService.findAll tbl = (Ok l, tbl) →
  u ∈ l ↔ tbl !! User.id u = Some (User.cols u) ∧ active (User.cols u).
Proof.
  rewrite findAll_eq. intros [= <-].
  rewrite list_elem_of_In, filter_In, <- list_elem_of_In.
  destruct u as [i r]; unfold User.id, User.cols; simpl.
  split; intros [Hin Hm]; split.
  - by apply elem_of_map_to_list in Hin.
  - by apply matches_not_deleted in Hm.
  - by apply elem_of_map_to_list.
  - by apply matches_not_deleted.
Qed.

Lemma email_taken_dec e tbl : Decision (email_taken e tbl).
Proof.
  destruct (List.find (Prisma.matches (Prisma.mkWhere None (Some e) (Some None)))
                      (map_to_list tbl)) as [[j s]|] eqn:Hf.
  - left. apply find_rows_Some in Hf as [Hl [He Hd]%matches_by_email].
    by exists j, s.
  - right. intros (i & r & Hl & Ha & He).
    pose proof (find_rows_None _ _ _ _ Hf Hl) as Hm.
    assert (Prisma.matches (Prisma.mkWhere None (Some e) (Some None)) (i, r)
            = true) as Ht by by apply matches_by_email.
    congruence.
Qed.

(** C3. For a soft-deleted row [r] stored under [i]: [findById i] throws
  NotFound; [findAll] returns exactly the non-deleted rows, so not [r];
  [create] with [r]'s email throws Conflict only when another, non-deleted
  row has that email; and the row is still stored under [i] in the table
  each of the three calls leaves. *)
Theorem soft_deleted_hidden_but_stored tbl i r :
  tbl !! i = Some r → User.deletedAt r ≠ None →
  UserService.findById i tbl
  = (Throw (NotFoundException "User was not found"), tbl)
  ∧ (∃ l, UserService.findAll tbl = (Ok l, tbl)
          ∧ ((i, r) ∉ l)
          ∧ ∀ u, u ∈ l ↔ tbl !! User.id u = Some (User.cols u)
                         ∧ User.deletedAt (User.cols u) = None)
  ∧ (∀ salt dto,
       CreateUserDto.email dto = User.email r →
       ((create salt dto tbl).1
        = Throw (ConflictException "Email already exists")
        ↔ ∃ j s, j ≠ i ∧ tbl !! j = Some s ∧ User.deletedAt s = None
                 ∧ User.email s = User.email r)
       ∧ (create salt dto tbl).2 !! i = Some r)
  ∧ (UserService.findById i tbl).2 !! i = Some r
  ∧ (UserService.findAll tbl).2 !! i = Some r.
Proof.
  intros Hl Hdel. repeat split.
  - rewrite findById_eq, Hl. by rewrite decide_False.
  - eexists. split; [apply findAll_eq|]. split.
    + intros [_ Ha]%(findAll_rows tbl _ _ (findAll_eq tbl)). by destruct Hdel.
    + intros u. apply (findAll_rows tbl _ _ (findAll_eq tbl)).
  - intros Hthrow.
    destruct (email_taken_dec (CreateUserDto.email dto) tbl)
      as [(j & s & Hj & Ha & He)|Hfree].
    + exists j, s. repeat split; [|done|done|congruence].
      intros ->. congruence.
    + rewrite (create_free _ _ _ Hfree) in Hthrow. discriminate.
  - intros (j & s & _ & Hj & Ha & He).
    rewrite create_taken; [done|]. exists j, s. repeat split; [done|done|congruence].
  - by apply create_keeps_rows.
  - by rewrite findById_eq, Hl, decide_False.
  - by rewrite findAll_eq.
Qed.

(** C4. When the id is absent, or the row stored under it is soft-deleted,
  [update] and [remove] throw NotFound and leave the table as it was. *)
Theorem update_remove_not_found tbl id dto now :
  tbl !! id = None ∨ (∃ r, tbl !! id = Some r ∧ User.deletedAt r ≠ None) →
  UserService.update id dto tbl
  = (Throw (NotFoundException "User was not found"), tbl)
  ∧ UserService.remove now id tbl
    = (Throw (NotFoundException "User was not found"), tbl).
Proof.
  rewrite update_eq, remove_eq.
  intros [-> | (r & -> & Hdel)]; [done|].
  by rewrite !decide_False by done.
Qed.

(** C8. When a non-deleted row [r] is stored under [id], [remove] returns
  and the table it leaves stores, under [id], [r] with deletedAt set to the
  current time and its other four fields as they were; every other id
  reads as before, and the ids in use are the same. *)
Theorem remove_sets_only_deletedAt tbl id r now :
  tbl !! id = Some r → User.deletedAt r = None →
  ∃ tbl',
    UserService.remove now id tbl = (Ok tt, tbl')
    ∧ tbl' !! id
      = Some {| User.firstName := User.firstName r;
                User.lastName := User.lastName r;
                User.email := User.email r;
                User.password := User.password r;
                User.deletedAt := Some now |}
    ∧ (∀ j, j ≠ id → tbl' !! j = tbl !! j)
    ∧ dom tbl' = dom tbl.
Proof.
  intros Hl Ha. exists (<[id := soft_deleted now r]> tbl).
  rewrite remove_eq, Hl, decide_True by done.
  split; [done|]. split; [by rewrite lookup_insert_eq|]. split.
  - intros j Hne. by rewrite lookup_insert_ne.
  - apply dom_insert_lookup_L. by eexists.
Qed.

Lemma exec_keeps_soft_deleted c tbl i r :
  tbl !! i = Some r → User.deletedAt r ≠ None → exec c tbl !! i = Some r.
Proof.
  intros Hl Hdel. destruct c as [salt dto|id|e| |id dto|now id]; simpl.
  - by apply create_keeps_rows.
  - rewrite findById_eq. destruct (tbl !! id); [|done]. by case_decide.
  - done.
  - done.
  - rewrite update_eq. destruct (tbl !! id) as [s|] eqn:Hid; [|done].
    case_decide as Ha; [|done]. simpl.
    rewrite lookup_insert_ne; [done|]. intros ->. congruence.
  - rewrite remove_eq. destruct (tbl !! id) as [s|] eqn:Hid; [|done].
    case_decide as Ha; [|done]. simpl.
    rewrite lookup_insert_ne; [done|]. intros ->. congruence.
Qed.

(** C10. A soft-deleted row is still stored, unchanged, under its id after
  any sequence of calls to create, findById, findByEmail, findAll, update
  and remove: its deletedAt is never cleared, and no field is rewritten. *)
Theorem soft_delete_is_permanent calls tbl i r :
  tbl !! i = Some r → User.deletedAt r ≠ None →
  run calls tbl !! i = Some r.
Proof.
  revert tbl. induction calls as [|c calls IH]; intros tbl Hl Hdel; [done|].
  simpl. apply IH; [|done]. by apply exec_keeps_soft_deleted.
Qed.

(** *** At most one non-deleted user per email *)

Lemma unique_active_email_replace tbl id r r' :
  tbl !! id = Some r →
  (active r' → active r ∧ User.email r' = User.email r) →
  UserService.unique_active_email tbl →
  UserService.unique_active_email (<[id := r']> tbl).
Proof.
  intros Hl Hr' Huniq i j ri rj Hi Hj Hai Haj He.
  apply lookup_insert_Some in Hi as [[<- <-]|[Hni Hi]];
    apply lookup_insert_Some in Hj as [[<- <-]|[Hnj Hj]]; [done| | |].
  - destruct (Hr' Hai) as [Ha Hemail].
    apply (Huniq _ _ _ _ Hl Hj Ha Haj). congruence.
  - destruct (Hr' Haj) as [Ha Hemail].
    apply (Huniq _ _ _ _ Hi Hl Hai Ha). congruence.
  - by apply (Huniq _ _ _ _ Hi Hj).
Qed.

Lemma unique_active_email_insert tbl id row :
  tbl !! id = None →
  ¬ email_taken (User.email row) tbl →
  UserService.unique_active_email tbl →
  UserService.unique_active_email (<[id := row]> tbl).
Proof.
  intros Hl Hfree Huniq i j ri rj Hi Hj Hai Haj He.
  apply lookup_insert_Some in Hi as [[<- <-]|[Hni Hi]];
    apply lookup_insert_Some in Hj as [[<- <-]|[Hnj Hj]]; [done| | |].
  - destruct Hfree. by exists j, rj.
  - destruct Hfree. by exists i, ri.
  - by apply (Huniq _ _ _ _ Hi Hj).
Qed.

Lemma exec_unique_active_email c tbl :
  UserService.keeps_emails c →
  UserService.unique_active_email tbl →
  UserService.unique_active_email (exec c tbl).
Proof.
  intros Hkeep Huniq. destruct c as [salt dto|id|e| |id dto|now id]; simpl.
  - destruct (email_taken_dec (CreateUserDto.email dto) tbl) as [Ht|Hfree].
    + by rewrite create_taken.
    + rewrite create_free by done. simpl.
      apply unique_active_email_insert; [apply fresh_id_unused|done|done].
  - rewrite findById_eq. destruct (tbl !! id); [|done]. by case_decide.
  - done.
  - done.
  - rewrite update_eq. destruct (tbl !! id) as [s|] eqn:Hid; [|done].
    case_decide as Ha; [|done]. simpl.
    apply (unique_active_email_replace _ _ s); [done| |done].
    simpl in Hkeep. rewrite Hkeep. unfold Prisma.apply_update; simpl.
    intros _. done.
  - rewrite remove_eq. destruct (tbl !! id) as [s|] eqn:Hid; [|done].
    case_decide as Ha; [|done]. simpl.
    apply (unique_active_email_replace _ _ s); [done| |done].
    intros Hact. discriminate Hact.
Qed.

(** The invariant holds after any calls none of which patches an email. *)
Theorem unique_active_email_when_emails_kept calls :
  Forall UserService.keeps_emails calls →
  UserService.unique_active_email (run calls ∅).
Proof.
  assert (∀ tbl, Forall UserService.keeps_emails calls →
                 UserService.unique_active_email tbl →
                 UserService.unique_active_email (run calls tbl)) as Hgen.
  { induction calls as [|c calls IH]; intros tbl Hall Huniq; [done|].
    apply Forall_cons in Hall as [Hc Hall]. simpl.
    apply IH; [done|]. by apply exec_unique_active_email. }
  intros Hall. apply Hgen; [done|].
  intros i j r s Hi. by rewrite lookup_empty in Hi.
Qed.

(** The service does not keep the invariant by itself.  Over a table with
  no constraint of its own, after two registrations under different
  emails, an update that patches the second user's email to the first's is
  accepted, and the table then stores two non-deleted rows with one email.
  [create] checks the email; [update] does not. *)
Theorem update_breaks_unique_active_email :
  forallb UserService.writes UserService.email_clash_calls = true
  ∧ (∃ r, run UserService.email_clash_calls ∅ !! "0" = Some r
          ∧ User.email r = "ann@example.com" ∧ User.deletedAt r = None)
  ∧ (∃ r, run UserService.email_clash_calls ∅ !! "1" = Some r
          ∧ User.email r = "ann@example.com" ∧ User.deletedAt r = None)
  ∧ ¬ UserService.unique_active_email (run UserService.email_clash_calls ∅).
Proof.
  assert (∃ r, run UserService.email_clash_calls ∅ !! "0" = Some r
          ∧ User.email r = "ann@example.com" ∧ User.deletedAt r = None) as H0.
  { eexists. split; [vm_compute; reflexivity|]. by split. }
  assert (∃ r, run UserService.email_clash_calls ∅ !! "1" = Some r
          ∧ User.email r = "ann@example.com" ∧ User.deletedAt r = None) as H1.
  { eexists. split; [vm_compute; reflexivity|]. by split. }
  split; [done|]. split; [done|]. split; [done|].
  intros Huniq.
  destruct H0 as (r0 & Hl0 & He0 & Ha0), H1 as (r1 & Hl1 & He1 & Ha1).
  assert ("0" = "1") as Hbad; [|discriminate Hbad].
  apply (Huniq _ _ _ _ Hl0 Hl1 Ha0 Ha1). congruence.
Qed.

End UserServiceFacts.

(** ** HttpExceptionFilter *)

Section FilterFacts.
Import HttpExceptionFilter.
Variable toISOString : Date → string.
Implicit Types (messages : list string) (errors : gmap string (list string)).

Abbreviation catch := (HttpExceptionFilter.catch toISOString).

(** C5. For a [PrismaClientKnownRequestError], [catch] sends: 409 with
  "Resource already exists" for code P2002; 400 for P2003; 404 for P2025;
  and 500 with "Internal server error" for every other code.  In all four
  cases [errors] is null, and only the last one is logged. *)
Theorem prisma_known_error_mapping url now :
  catch (PrismaClientKnownRequestError "P2002") url now
  = Normal (mkSent 409
              (mkBody false 409 (JsString "Resource already exists") None
                      (toISOString now) url) [])
  ∧ catch (PrismaClientKnownRequestError "P2003") url now
    = Normal (mkSent 400
                (mkBody false 400 (JsString "Related resource not found") None
                        (toISOString now) url) [])
  ∧ catch (PrismaClientKnownRequestError "P2025") url now
    = Normal (mkSent 404
                (mkBody false 404 (JsString "Resource not found") None
                        (toISOString now) url) [])
  ∧ ∀ code,
      code ≠ "P2002" → code ≠ "P2003" → code ≠ "P2025" →
      catch (PrismaClientKnownRequestError code) url now
      = Normal (mkSent 500
                  (mkBody false 500 (JsString "Internal server error") None
                          (toISOString now) url)
                  ["Unhandled Prisma error:"]).
Proof.
  repeat split.
  intros code H1 H2 H3. unfold HttpExceptionFilter.catch, classify.
  unfold PrismaErrorCode.UNIQUE_CONSTRAINT,
    PrismaErrorCode.FOREIGN_KEY_CONSTRAINT, PrismaErrorCode.RECORD_NOT_FOUND.
  by rewrite !bool_decide_false by done.
Qed.

(** *** Grouping of validation messages *)

Lemma split_head (s : string) :
  ∃ f t, split " " s = f :: t
         ∧ contains " " f = false
         ∧ (s = f ∨ ∃ rest, s = f ++ String " " rest).
Proof.
  induction s as [|c r (f & t & Hs & Hc & Hr)]; simpl.
  - exists EmptyString, []. split; [done|]. split; [done|]. by left.
  - case_bool_decide as Hsp.
    + subst c. exists EmptyString, (split " " r). split; [done|]. split; [done|].
      right. by exists r.
    + rewrite Hs. exists (String c f), t. split; [done|]. split.
      * simpl. rewrite Hc. by rewrite bool_decide_false.
      * destruct Hr as [-> | [rest ->]]; [by left|]. right. by exists rest.
Qed.

Lemma field_of_prefix (msg : string) :
  contains " " (field_of msg) = false
  ∧ (msg = field_of msg ∨ ∃ rest, msg = field_of msg ++ String " " rest).
Proof.
  unfold field_of. by destruct (split_head msg) as (f & t & -> & Hc & Hr).
Qed.

Lemma format_loop_appends messages errors :
  Forall (λ m, field_of m ∉ Object_prototype) messages →
  ∃ errors',
    format_loop messages errors = Normal errors'
    ∧ ∀ k, errors' !! k
           = appended (errors !! k)
               (List.filter (λ m, bool_decide (field_of m = k)) messages).
Proof.
  revert errors.
  induction messages as [|msg rest IH]; intros errors Hall.
  - exists errors. split; [done|]. intros k. simpl.
    destruct (errors !! k); simpl; [by rewrite app_nil_r|done].
  - apply Forall_cons in Hall as [Hmsg Hrest]. simpl.
    assert (∃ errors1,
              format_step errors msg = Normal errors1
              ∧ errors1
                = <[field_of msg :=
                      (default [] (errors !! field_of msg) ++ [msg])%list]>
                    errors) as (errors1 & Hstep & Heq).
    { unfold format_step. destruct (errors !! field_of msg) eqn:Hown.
      - by eexists.
      - unfold inherited. rewrite bool_decide_false by done. by eexists. }
    rewrite Hstep. destruct (IH errors1 Hrest) as (errors' & -> & Hlook).
    exists errors'. split; [done|]. intros k. rewrite Hlook, Heq.
    case_bool_decide as Hk.
    + subst k. rewrite lookup_insert_eq.
      destruct (errors !! field_of msg); simpl; [by rewrite <- app_assoc|done].
    + rewrite lookup_insert_ne by done. done.
Qed.

(** C6, as the code has it.  When no message's field name is a property
  inherited from [Object.prototype], [formatValidationErrors] returns the
  record that groups the messages by field name, each message appended in
  order to its key's list.  The field name of a message is its text before
  its first space character: it contains no space, and the message is that
  text alone or that text, a space and a rest.  The array of the spec's
  example maps to the record of the example. *)
Theorem formatValidationErrors_groups_by_field :
  (∀ messages,
     Forall (λ m, field_of m ∉ Object_prototype) messages →
     ∃ errors, formatValidationErrors messages = Normal errors
               ∧ grouped_by field_of messages errors)
  ∧ (∀ msg,
       contains " " (field_of msg) = false
       ∧ (msg = field_of msg ∨ ∃ rest, msg = field_of msg ++ String " " rest))
  ∧ formatValidationErrors
      [ "email must be an email";
        "password must be longer than or equal to 8 characters" ]
    = Normal
        {[ "email" := ["email must be an email"];
           "password" :=
             ["password must be longer than or equal to 8 characters"] ]}.
Proof.
  split; [|split].
  - intros messages Hall.
    destruct (format_loop_appends messages ∅ Hall) as (errors & Hloop & Hlook).
    exists errors. split; [done|]. intros k. rewrite Hlook, lookup_empty.
    by destruct (List.filter _ messages).
  - apply field_of_prefix.
  - by vm_compute.
Qed.

(** *** The errors field *)

Ltac catch_cases :=
  unfold HttpExceptionFilter.catch, classify; simpl;
  repeat case_bool_decide; simpl.

Lemma catch_not_validation exception url now :
  ¬ validation_case exception →
  ∃ sent, catch exception url now = Normal sent ∧ errors (body sent) = None.
Proof.
  intros Hnv.
  destruct exception as [[s|[[]|]]|st [s|[msg|]]|code|m|d];
    try (catch_cases; by eexists).
  destruct Hnv. by eexists.
Qed.

(** C9. In the body [catch] sends, [errors] is non-null exactly in the
  validation case, a [BadRequestException] whose response object has an
  array under [message]; for every other exception (any other
  [HttpException], either Prisma error, anything else) a body is sent and
  its [errors] is null. *)
Theorem errors_only_for_validation exception url now :
  (∀ sent, catch exception url now = Normal sent →
           errors (body sent) ≠ None ↔ validation_case exception)
  ∧ (¬ validation_case exception →
     ∃ sent, catch exception url now = Normal sent
             ∧ errors (body sent) = None).
Proof.
  split; [|apply catch_not_validation].
  intros sent Hsent. split.
  - intros Hsome.
    destruct exception as [[s|[[]|]]|st [s|[msg|]]|code|m|d];
      try (revert Hsent; catch_cases; intros [= <-]; by destruct Hsome).
    by eexists.
  - intros [items ->] Hnone. revert Hsent. catch_cases.
    destruct (formatValidationErrors items); [|done].
    intros [= <-]. discriminate Hnone.
Qed.

End FilterFacts.

(** ** TransformResponseInterceptor *)

Section InterceptorFacts.
Import TransformResponseInterceptor.
Variable toISOString : Date → string.

Abbreviation intercept := (TransformResponseInterceptor.intercept toISOString).

(** C7. With the skip marker on the handler or on its class, every value
  the handler emits comes out as it is; with no marker every value [data]
  comes out as the record of [success = true], [data] and the timestamp of
  that moment.  This is so for every type of value; with no marker, null
  and undefined are wrapped like any other value. *)
Theorem intercept_skip_or_envelope :
  (∀ (T : Type) (onHandler onClass : bool) (next : Observable T),
     intercept (context_of onHandler onClass) next
     = List.map
         (λ '(now, data),
            (now,
             if onHandler || onClass then Raw data
             else Wrapped {| success := true;
                             data := data;
                             timestamp := toISOString now |}))
         next)
  ∧ (∀ now,
       intercept (context_of false false) [(now, JsNull)]
       = [(now, Wrapped (mkEnvelope true JsNull (toISOString now)))]
       ∧ intercept (context_of false false) [(now, JsUndefined)]
         = [(now, Wrapped (mkEnvelope true JsUndefined (toISOString now)))]).
Proof.
  split.
  - intros T onHandler onClass next. by destruct onHandler, onClass.
  - done.
Qed.

End InterceptorFacts.

(** * The theorems at sample inputs *)

Section Witnesses.
Import Samples.

Lemma create_conflict_or_persist_witness :
  UserService.create toy_hash "salt1" ann one_user
  = (Throw (ConflictException "Email already exists"), one_user)
  ∧ (∃ i, one_user !! i = None
          ∧ UserService.create toy_hash "salt1" ann_upper one_user
            = (Ok (i, User.mk "Ann" "Lee" "ANN@example.com"
                              (toy_hash "password1" 10 "salt1") None),
               <[i := User.mk "Ann" "Lee" "ANN@example.com"
                              (toy_hash "password1" 10 "salt1") None]>
                 one_user)).
Proof.
  split.
  - apply (proj1 (create_conflict_or_persist toy_hash "salt1" ann one_user)).
    exists "0", ann_row. by vm_compute.
  - apply (proj2 (create_conflict_or_persist toy_hash "salt1" ann_upper
                    one_user)).
    intros (i & r & Hl & Ha & He). unfold one_user in Hl.
    apply lookup_singleton_Some in Hl as [_ <-]. discriminate He.
Defined.

Lemma soft_deleted_hidden_but_stored_witness :
  UserService.findById "0" one_deleted
  = (Throw (NotFoundException "User was not found"), one_deleted)
  ∧ (UserService.create toy_hash "salt1" ann one_deleted).1
    ≠ Throw (ConflictException "Email already exists")
  ∧ (UserService.create toy_hash "salt1" ann one_deleted).2 !! "0"
    = Some ann_gone.
Proof.
  destruct (soft_deleted_hidden_but_stored toy_hash one_deleted "0" ann_gone)
    as (Hfind & _ & Hcreate & _); [reflexivity|discriminate|].
  destruct (Hcreate "salt1" ann) as [Hiff Hkept]; [reflexivity|].
  split; [exact Hfind|]. split; [|exact Hkept].
  intros Hthrow. apply Hiff in Hthrow as (j & s & Hne & Hl & _).
  unfold one_deleted in Hl.
  apply lookup_singleton_Some in Hl as [Hj _]. congruence.
Defined.

Lemma update_remove_not_found_witness :
  (UserService.update "0" rename one_deleted
   = (Throw (NotFoundException "User was not found"), one_deleted)
   ∧ UserService.remove 2000%Z "0" one_deleted
     = (Throw (NotFoundException "User was not found"), one_deleted))
  ∧ (UserService.update "7" rename one_user
     = (Throw (NotFoundException "User was not found"), one_user)
     ∧ UserService.remove 2000%Z "7" one_user
       = (Throw (NotFoundException "User was not found"), one_user)).
Proof.
  split.
  - apply update_remove_not_found. right. exists ann_gone.
    split; [reflexivity|discriminate].
  - apply update_remove_not_found. left. reflexivity.
Defined.

Lemma remove_sets_only_deletedAt_witness :
  ∃ tbl',
    UserService.remove 2000%Z "0" one_user = (Ok tt, tbl')
    ∧ tbl' !! "0"
      = Some (User.mk "Ann" "Lee" "ann@example.com" "$2b$salt0$password1"
                      (Some 2000%Z))
    ∧ (∀ j, j ≠ "0" → tbl' !! j = one_user !! j)
    ∧ dom tbl' = dom one_user.
Proof.
  apply (remove_sets_only_deletedAt one_user "0" ann_row 2000%Z);
    reflexivity.
Defined.

Lemma soft_delete_is_permanent_witness :
  UserService.run toy_hash
    [ UserService.CallUpdate "0" rename;
      UserService.CallRemove 2000%Z "0";
      UserService.CallCreate "salt1" ann;
      UserService.CallFindAll ]
    one_deleted !! "0"
  = Some ann_gone.
Proof.
  apply soft_delete_is_permanent; [reflexivity|discriminate].
Defined.

Lemma prisma_known_error_mapping_witness :
  HttpExceptionFilter.catch toy_iso
    (HttpExceptionFilter.PrismaClientKnownRequestError "P2000") "/users" 0%Z
  = HttpExceptionFilter.Normal
      (HttpExceptionFilter.mkSent 500
         (HttpExceptionFilter.mkBody false 500
            (JsString "Internal server error") None
            "1970-01-01T00:00:00.000Z" "/users")
         ["Unhandled Prisma error:"]).
Proof.
  apply (proj2 (proj2 (proj2
           (prisma_known_error_mapping toy_iso "/users" 0%Z))));
    discriminate.
Defined.

Lemma formatValidationErrors_groups_by_field_witness :
  ∃ errors,
    HttpExceptionFilter.formatValidationErrors
      ["email must be an email"; "email should not be empty"]
    = HttpExceptionFilter.Normal errors
    ∧ HttpExceptionFilter.grouped_by HttpExceptionFilter.field_of
        ["email must be an email"; "email should not be empty"] errors.
Proof.
  apply (proj1 formatValidationErrors_groups_by_field).
  apply (bool_decide_unpack _). by vm_compute.
Defined.

Lemma errors_only_for_validation_witness :
  ∃ sent,
    HttpExceptionFilter.catch toy_iso
      (HttpExceptionFilter.HttpException 404
         (HttpExceptionFilter.ResponseString "User was not found"))
      "/users/7" 0%Z
    = HttpExceptionFilter.Normal sent
    ∧ HttpExceptionFilter.errors (HttpExceptionFilter.body sent) = None.
Proof.
  apply (proj2 (errors_only_for_validation toy_iso _ "/users/7" 0%Z)).
  intros [items Heq]. discriminate Heq.
Defined.

End Witnesses.

(** * Where the code departs from the specification *)

(** C6, as the spec words it, fails.  A message whose field name is followed
  by a tab is filed under everything before its first space, not under its
  first whitespace-separated token; and a message whose first token names a
  property inherited from [Object.prototype] makes the function die on a
  [TypeError] instead of returning a record. *)
Lemma formatValidationErrors_not_by_first_token :
  ¬ HttpExceptionFilter.groups_by_first_token
      [HttpExceptionFilter.tab_message]
  ∧ ¬ HttpExceptionFilter.groups_by_first_token
        ["constructor must be a string"].
Proof.
  split.
  - intros (errors & Hf & Hg). vm_compute in Hf. injection Hf as <-.
    specialize (Hg "email"). vm_compute in Hg. discriminate Hg.
  - intros (errors & Hf & _). vm_compute in Hf. discriminate Hf.
Qed.

(** * Further properties of the code *)

(** ** UserService: how the calls compose *)

Section UserServiceComposition.
Variable bcrypt_hash : string → N → string → string.
Implicit Types (tbl : Table) (r s : User.columns) (i j id : string).

Abbreviation create' := (UserService.create bcrypt_hash).
Abbreviation run' := (UserService.run bcrypt_hash).
Abbreviation exec' := (UserService.exec bcrypt_hash).
Abbreviation exception_of' := (UserService.exception_of bcrypt_hash).
Abbreviation taken := UserService.email_taken.
Abbreviation NotFound := (NotFoundException "User was not found").
Abbreviation Conflict := (ConflictException "Email already exists").

Lemma findByEmail_found e tbl u :
  UserService.findByEmail e tbl = (Ok (Some u), tbl) →
  tbl !! User.id u = Some (User.cols u)
  ∧ User.email (User.cols u) = e ∧ User.deletedAt (User.cols u) = None.
Proof.
  unfold UserService.findByEmail, Prisma.findFirst. intros [= Hf].
  apply find_rows_Some in Hf as [Hl Hm]. split; [done|].
  destruct u as [j s]. by apply matches_by_email in Hm.
Qed.

Lemma findByEmail_total e tbl :
  ∃ o, UserService.findByEmail e tbl = (Ok o, tbl).
Proof. by eexists. Qed.

Lemma findByEmail_none e tbl :
  UserService.findByEmail e tbl = (Ok None, tbl) ↔ ¬ taken e tbl.
Proof.
  unfold UserService.findByEmail, Prisma.findFirst. split.
  - intros [= Hf] (i & r & Hl & Ha & He).
    pose proof (find_rows_None _ _ _ _ Hf Hl) as Hm.
    assert (Prisma.matches (Prisma.mkWhere None (Some e) (Some None)) (i, r)
            = true) as Ht by by apply matches_by_email.
    congruence.
  - intros Hfree. destruct (List.find _ _) as [[j s]|] eqn:Hf; [|done].
    apply find_rows_Some in Hf as [Hl [He Hd]%matches_by_email].
    destruct Hfree. by exists j, s.
Qed.

(** X1. [findByEmail] never throws and writes nothing.  It returns null
  exactly when no non-deleted row has the email, which is exactly when
  [create] with that email goes through; a row it returns is stored, not
  soft-deleted and has the email; and when the table has at most one
  non-deleted user per email, it returns the one stored holder. *)
Theorem findByEmail_agrees_with_create e tbl :
  (∃ o, UserService.findByEmail e tbl = (Ok o, tbl)
        ∧ (o = None ↔ ¬ taken e tbl)
        ∧ (∀ u, o = Some u →
                tbl !! User.id u = Some (User.cols u)
                ∧ User.email (User.cols u) = e
                ∧ User.deletedAt (User.cols u) = None))
  ∧ (∀ salt dto,
       CreateUserDto.email dto = e →
       (UserService.findByEmail e tbl = (Ok None, tbl)
        ↔ ∃ u, (create' salt dto tbl).1 = Ok u))
  ∧ (∀ i r,
       UserService.unique_active_email tbl →
       tbl !! i = Some r → User.deletedAt r = None → User.email r = e →
       UserService.findByEmail e tbl = (Ok (Some (i, r)), tbl)).
Proof.
  split; [|split].
  - destruct (findByEmail_total e tbl) as [o Ho]. exists o.
    split; [done|]. split.
    + rewrite <- findByEmail_none. rewrite Ho. split; [by intros ->|].
      by intros [= ->].
    + intros u ->. by apply findByEmail_found.
  - intros salt dto <-. rewrite findByEmail_none. split.
    + intros Hfree. rewrite create_free by done. by eexists.
    + intros [u Hu] Ht. rewrite create_taken in Hu by done. discriminate Hu.
  - intros i r Huniq Hl Ha He.
    destruct (findByEmail_total e tbl) as [[[j s]|] Ho].
    + rewrite Ho. apply findByEmail_found in Ho as (Hj & Hej & Haj).
      unfold User.id, User.cols in *. simpl in *. assert (i = j) as <-.
      { apply (Huniq _ _ _ _ Hl Hj Ha Haj). congruence. }
      rewrite Hl in Hj. by injection Hj as <-.
    + apply findByEmail_none in Ho. destruct Ho. by exists i, r.
Qed.

(** X2. A registration that goes through can be read back: [findById] with
  the returned id, and [findByEmail] with the input's email, both return
  the created user, and [findAll] lists it. *)
Theorem create_then_read_back salt dto tbl :
  ¬ taken (CreateUserDto.email dto) tbl →
  ∃ u tbl',
    create' salt dto tbl = (Ok u, tbl')
    ∧ UserService.findById (User.id u) tbl' = (Ok u, tbl')
    ∧ UserService.findByEmail (CreateUserDto.email dto) tbl'
      = (Ok (Some u), tbl')
    ∧ ∃ l, UserService.findAll tbl' = (Ok l, tbl') ∧ u ∈ l.
Proof.
  intros Hfree.
  set (i := fresh (dom tbl)).
  set (row := UserService.created_row bcrypt_hash salt dto).
  exists (i, row), (<[i := row]> tbl).
  split; [by apply create_free|]. split; [|split].
  - rewrite findById_eq. simpl. by rewrite lookup_insert_eq.
  - destruct (findByEmail_total (CreateUserDto.email dto) (<[i := row]> tbl))
      as [[[j s]|] Ho].
    + rewrite Ho. apply findByEmail_found in Ho as (Hj & Hej & Haj).
      unfold User.id, User.cols in *. simpl in *.
      apply lookup_insert_Some in Hj as [[<- <-]|[Hne Hj]];
        [done|].
      destruct Hfree. by exists j, s.
    + apply findByEmail_none in Ho. destruct Ho. exists i, row.
      by rewrite lookup_insert_eq.
  - eexists. split; [apply findAll_eq|].
    apply (findAll_rows _ _ _ (findAll_eq _)). simpl.
    by rewrite lookup_insert_eq.
Qed.

(** X3. [update] on a stored, non-deleted row replaces each field the patch
  provides and keeps each field it leaves out; deletedAt stays null, the
  rows under other ids are as before, no id is added, and the updated row
  is what the call returns and what [findById] then returns. *)
Theorem update_merges_patch tbl id r dto :
  tbl !! id = Some r → User.deletedAt r = None →
  let r' :=
    {| User.firstName :=
         default (User.firstName r) (UpdateUserDto.firstName dto);
       User.lastName := default (User.lastName r) (UpdateUserDto.lastName dto);
       User.email := default (User.email r) (UpdateUserDto.email dto);
       User.password := default (User.password r) (UpdateUserDto.password dto);
       User.deletedAt := None |} in
  ∃ tbl',
    UserService.update id dto tbl = (Ok (id, r'), tbl')
    ∧ tbl' !! id = Some r'
    ∧ (∀ j, j ≠ id → tbl' !! j = tbl !! j)
    ∧ dom tbl' = dom tbl
    ∧ UserService.findById id tbl' = (Ok (id, r'), tbl').
Proof.
  intros Hl Ha r'. exists (<[id := r']> tbl).
  rewrite update_eq, Hl, decide_True by done.
  unfold Prisma.apply_update; simpl. rewrite Ha. fold r'.
  split; [done|]. split; [by rewrite lookup_insert_eq|]. split; [|split].
  - intros j Hne. by rewrite lookup_insert_ne.
  - apply dom_insert_lookup_L. by eexists.
  - rewrite findById_eq, lookup_insert_eq. done.
Qed.

(** X4. [update] stores a patched password as it is given: the hash that
  [create] applies is not applied, so after the call the stored password,
  and the one [findById] returns, is the patch's own string. *)
Theorem update_stores_password_verbatim tbl id r dto p :
  tbl !! id = Some r → User.deletedAt r = None →
  UpdateUserDto.password dto = Some p →
  ∃ u tbl',
    UserService.update id dto tbl = (Ok u, tbl')
    ∧ User.password (User.cols u) = p
    ∧ ∃ v, UserService.findById id tbl' = (Ok v, tbl')
           ∧ User.password (User.cols v) = p.
Proof.
  intros Hl Ha Hp. eexists _, _.
  rewrite update_eq, Hl, decide_True by done. split; [reflexivity|].
  unfold Prisma.apply_update; simpl. rewrite Hp. split; [done|].
  eexists. rewrite findById_eq, lookup_insert_eq. simpl. rewrite Ha.
  split; [reflexivity|done].
Qed.

(** X5. After [remove] has soft-deleted a user, the id is dead to the
  service: [findById], [update] and a second [remove] throw NotFound and
  write nothing, and [findAll] lists no user with that id. *)
Theorem removed_id_is_not_found tbl id r now :
  tbl !! id = Some r → User.deletedAt r = None →
  ∃ tbl',
    UserService.remove now id tbl = (Ok tt, tbl')
    ∧ UserService.findById id tbl' = (Throw NotFound, tbl')
    ∧ (∀ dto, UserService.update id dto tbl' = (Throw NotFound, tbl'))
    ∧ (∀ later, UserService.remove later id tbl' = (Throw NotFound, tbl'))
    ∧ ∃ l, UserService.findAll tbl' = (Ok l, tbl')
           ∧ ∀ u, u ∈ l → User.id u ≠ id.
Proof.
  intros Hl Ha. eexists.
  rewrite remove_eq, Hl, decide_True by done. split; [reflexivity|].
  split; [|split; [|split]].
  - rewrite findById_eq, lookup_insert_eq. done.
  - intros dto. rewrite update_eq, lookup_insert_eq. done.
  - intros later. rewrite remove_eq, lookup_insert_eq. done.
  - eexists. split; [apply findAll_eq|]. intros [j s] Hin Hj.
    apply (findAll_rows _ _ _ (findAll_eq _)) in Hin as [Hs Hact].
    unfold User.id, User.cols in *. simpl in *. subst j.
    rewrite lookup_insert_eq in Hs. injection Hs as <-. discriminate Hact.
Qed.

(** X6. An email is free again once its holder is soft-deleted: in a table
  with at most one non-deleted user per email, after [remove] of the
  holder a [create] with the same email goes through, under a new id, and
  the soft-deleted row is still stored under the old one. *)
Theorem email_free_after_remove tbl id r now salt dto :
  UserService.unique_active_email tbl →
  tbl !! id = Some r → User.deletedAt r = None →
  CreateUserDto.email dto = User.email r →
  ∃ tbl' i tbl'',
    UserService.remove now id tbl = (Ok tt, tbl')
    ∧ create' salt dto tbl'
      = (Ok (i, UserService.created_row bcrypt_hash salt dto), tbl'')
    ∧ i ≠ id
    ∧ tbl'' !! id = Some (UserService.soft_deleted now r)
    ∧ tbl'' !! i = Some (UserService.created_row bcrypt_hash salt dto).
Proof.
  intros Huniq Hl Ha He.
  set (tbl' := <[id := UserService.soft_deleted now r]> tbl).
  assert (¬ taken (CreateUserDto.email dto) tbl') as Hfree.
  { intros (j & s & Hj & Haj & Hej).
    apply lookup_insert_Some in Hj as [[<- <-]|[Hne Hj]]; [discriminate Haj|].
    apply Hne. symmetry. apply (Huniq _ _ _ _ Hj Hl Haj Ha). congruence. }
  assert (fresh (dom tbl') ≠ id) as Hid.
  { intros Heq. pose proof (fresh_id_unused tbl') as Hf.
    rewrite Heq in Hf. unfold tbl' in Hf. by rewrite lookup_insert_eq in Hf. }
  exists tbl', (fresh (dom tbl')),
    (<[fresh (dom tbl') := UserService.created_row bcrypt_hash salt dto]> tbl').
  rewrite remove_eq, Hl, decide_True by done. split; [done|].
  rewrite create_free by done. split; [reflexivity|]. split; [done|]. split.
  - rewrite lookup_insert_ne by done. unfold tbl'. by rewrite lookup_insert_eq.
  - by rewrite lookup_insert_eq.
Qed.

Lemma exec_dom c tbl : dom tbl ⊆ dom (exec' c tbl).
Proof.
  destruct c as [salt dto|id|e| |id dto|now id]; simpl; try done.
  - destruct (create_table bcrypt_hash salt dto tbl) as [-> | ->]; [done|].
    rewrite dom_insert_L. set_solver.
  - rewrite findById_eq. destruct (tbl !! id); [|done]. by case_decide.
  - rewrite update_eq. destruct (tbl !! id) as [s|] eqn:Hid; [|done].
    case_decide; [|done]. simpl. rewrite dom_insert_L. set_solver.
  - rewrite remove_eq. destruct (tbl !! id) as [s|] eqn:Hid; [|done].
    case_decide; [|done]. simpl. rewrite dom_insert_L. set_solver.
Qed.

(** X7. No sequence of calls ever takes a row out of the table: every id
  that is stored stays stored, so the number of rows never goes down. *)
Theorem rows_are_never_deleted calls tbl :
  dom tbl ⊆ dom (UserService.run bcrypt_hash calls tbl)
  ∧ (size tbl ≤ size (UserService.run bcrypt_hash calls tbl))%nat.
Proof.
  assert (dom tbl ⊆ dom (run' calls tbl)) as Hsub.
  { revert tbl. induction calls as [|c calls IH]; intros tbl; [done|].
    simpl. etrans; [apply exec_dom|apply IH]. }
  split; [done|]. rewrite <- !size_dom. by apply subseteq_size.
Qed.

(** X8. A call that throws has written nothing: the table it leaves is the
  table it was given. *)
Theorem throwing_call_writes_nothing c tbl e :
  UserService.exception_of bcrypt_hash c tbl = Some e →
  UserService.exec bcrypt_hash c tbl = tbl.
Proof.
  destruct c as [salt dto|id|em| |id dto|now id]; simpl;
    unfold UserService.thrown; try done.
  - destruct (email_taken_dec (CreateUserDto.email dto) tbl) as [Ht|Hfree].
    + by rewrite create_taken.
    + by rewrite create_free.
  - rewrite findById_eq. destruct (tbl !! id); [|done]. by case_decide.
  - rewrite update_eq. destruct (tbl !! id); [|done]. by case_decide.
  - rewrite remove_eq. destruct (tbl !! id); [|done]. by case_decide.
Qed.

(** X9. What the service throws, and when.  [create] throws only the
  Conflict exception, exactly when the email is taken by a non-deleted
  row; [findById], [update] and [remove] throw only NotFound, exactly when
  no non-deleted row is stored under the id; [findByEmail] and [findAll]
  never throw.  No call lets an ORM error through. *)
Theorem service_exceptions c tbl :
  match c with
  | UserService.CallCreate _ dto =>
      (exception_of' c tbl = Some Conflict
       ↔ taken (CreateUserDto.email dto) tbl)
      ∧ (exception_of' c tbl = None
         ↔ ¬ taken (CreateUserDto.email dto) tbl)
  | UserService.CallFindById id
  | UserService.CallUpdate id _
  | UserService.CallRemove _ id =>
      (exception_of' c tbl = Some NotFound
       ↔ ¬ ∃ r, tbl !! id = Some r ∧ User.deletedAt r = None)
      ∧ (exception_of' c tbl = None
         ↔ ∃ r, tbl !! id = Some r ∧ User.deletedAt r = None)
  | UserService.CallFindByEmail _ | UserService.CallFindAll =>
      exception_of' c tbl = None
  end.
Proof.
  assert (∀ id (t : option Exception),
            t = match tbl !! id with
                | Some r => if decide (User.deletedAt r = None)
                            then None else Some NotFound
                | None => Some NotFound
                end →
            (t = Some NotFound
             ↔ ¬ ∃ r, tbl !! id = Some r ∧ User.deletedAt r = None)
            ∧ (t = None
               ↔ ∃ r, tbl !! id = Some r ∧ User.deletedAt r = None))
    as Hby_id.
  { intros id t ->.
    destruct (tbl !! id) as [r|]; [case_decide as Ha|]; simpl.
    - split; split; [done| |by eexists|done].
      intros Hno. destruct Hno. by exists r.
    - split; split; [|done|done|].
      + intros _ (s & [= <-] & Hs). done.
      + intros (s & [= <-] & Hs). done.
    - split; split; [|done|done|].
      + by intros _ (s & Hs & _).
      + by intros (s & Hs & _). }
  destruct c as [salt dto|id|em| |id dto|now id]; simpl; try done.
  - unfold UserService.thrown.
    destruct (email_taken_dec (CreateUserDto.email dto) tbl) as [Ht|Hfree].
    + rewrite create_taken by done. simpl. by split; split.
    + rewrite create_free by done. simpl. by split; split.
  - apply Hby_id. rewrite findById_eq.
    destruct (tbl !! id); [|done]. by case_decide.
  - apply Hby_id. rewrite update_eq.
    destruct (tbl !! id); [|done]. by case_decide.
  - apply Hby_id. rewrite remove_eq.
    destruct (tbl !! id); [|done]. by case_decide.
Qed.

Lemma filter_permutation {A} (f : A → bool) (l l' : list A) :
  l ≡ₚ l' → List.filter f l ≡ₚ List.filter f l'.
Proof.
  induction 1 as [|x l l' _ IH|x y l|l l' l'' _ IH1 _ IH2]; simpl.
  - done.
  - destruct (f x); [by constructor|done].
  - destruct (f x), (f y); try done. apply perm_swap.
  - by etrans.
Qed.

(** X10. [findAll] follows the writes, up to the order of the list: after
  a [create] that goes through it lists the users it listed before and
  the created one; after a [remove] that goes through it lists the users
  it listed before but the removed one. *)
Theorem findAll_follows_writes tbl l :
  UserService.findAll tbl = (Ok l, tbl) →
  (∀ salt dto u tbl' l',
     create' salt dto tbl = (Ok u, tbl') →
     UserService.findAll tbl' = (Ok l', tbl') →
     l' ≡ₚ u :: l)
  ∧ (∀ now id r tbl' l',
       tbl !! id = Some r →
       UserService.remove now id tbl = (Ok tt, tbl') →
       UserService.findAll tbl' = (Ok l', tbl') →
       l ≡ₚ (id, r) :: l').
Proof.
  rewrite findAll_eq. intros [= <-]. split.
  - intros salt dto u tbl' l' Hcreate.
    destruct (email_taken_dec (CreateUserDto.email dto) tbl) as [Ht|Hfree].
    { rewrite create_taken in Hcreate by done. discriminate Hcreate. }
    rewrite create_free in Hcreate by done. injection Hcreate as <- <-.
    rewrite findAll_eq. intros [= <-].
    rewrite (filter_permutation _ _ _
               (map_to_list_insert tbl _ _ (fresh_id_unused tbl))).
    done.
  - intros now id r tbl' l' Hl. rewrite remove_eq, Hl.
    case_decide as Ha; [|done]. intros [= <-].
    rewrite findAll_eq. intros [= <-].
    rewrite <- (filter_permutation _ _ _ (map_to_list_delete tbl id r Hl)).
    rewrite <- (insert_delete_eq tbl).
    rewrite (filter_permutation _ _ _
               (map_to_list_insert (delete id tbl) id _
                  (lookup_delete_eq tbl id))).
    simpl. unfold Prisma.matches at 1 3; simpl.
    by rewrite bool_decide_true by done.
Qed.

(** X11. What [update] would have to check.  A patch keeps "at most one
  non-deleted user per email" whenever it carries no email, or an email
  that no other non-deleted row holds. *)
Theorem update_keeps_invariant_when_email_is_free tbl id dto :
  UserService.unique_active_email tbl →
  (∀ e, UpdateUserDto.email dto = Some e →
        ∀ j s, tbl !! j = Some s → User.deletedAt s = None →
               User.email s = e → j = id) →
  UserService.unique_active_email (UserService.update id dto tbl).2.
Proof.
  intros Huniq Hfree. rewrite update_eq.
  destruct (tbl !! id) as [r|] eqn:Hid; [|done].
  case_decide as Ha; [|done]. simpl.
  intros i j ri rj Hi Hj Hai Haj He.
  destruct (UpdateUserDto.email dto) as [e|] eqn:Hpatch.
  - unfold Prisma.apply_update in *; simpl in *.
    apply lookup_insert_Some in Hi as [[<- <-]|[Hni Hi]];
      apply lookup_insert_Some in Hj as [[<- <-]|[Hnj Hj]]; [done| | |].
    + simpl in He. symmetry. by apply (Hfree e eq_refl j rj).
    + simpl in He. by apply (Hfree e eq_refl i ri).
    + by apply (Huniq _ _ _ _ Hi Hj).
  - unfold Prisma.apply_update in *; simpl in *.
    apply lookup_insert_Some in Hi as [[<- <-]|[Hni Hi]];
      apply lookup_insert_Some in Hj as [[<- <-]|[Hnj Hj]]; [done| | |].
    + simpl in He. by apply (Huniq _ _ _ _ Hid Hj).
    + simpl in He. by apply (Huniq _ _ _ _ Hi Hid).
    + by apply (Huniq _ _ _ _ Hi Hj).
Qed.

End UserServiceComposition.

(** ** HttpExceptionFilter: branches and edge cases *)

Section FilterBranches.
Import HttpExceptionFilter.
Variable toISOString : Date → string.
Implicit Types (messages : list string) (errors : gmap string (list string)).

Abbreviation catch' := (HttpExceptionFilter.catch toISOString).

Ltac catch_unfold :=
  unfold HttpExceptionFilter.catch, classify; simpl;
  repeat case_bool_decide; simpl.

(** X12. Every body [catch] sends has [success] false, carries as
  [statusCode] the very status given to the response, the request's url
  as [path] and the current time as [timestamp]. *)
Theorem sent_body_is_consistent exception url now sent :
  HttpExceptionFilter.catch toISOString exception url now = Normal sent →
  success (body sent) = false
  ∧ statusCode (body sent) = status sent
  ∧ path (body sent) = url
  ∧ timestamp (body sent) = toISOString now.
Proof.
  unfold HttpExceptionFilter.catch.
  destruct (classify exception) as [[[[st msg] errs] lg]|]; [|done].
  by intros [= <-].
Qed.

Lemma format_loop_crash messages errors :
  (∀ k, k ∈ Object_prototype → errors !! k = None) →
  Exists (λ m, field_of m ∈ Object_prototype) messages →
  format_loop messages errors = TypeError.
Proof.
  revert errors. induction messages as [|msg rest IH]; intros errors Hown Hex.
  - by apply Exists_nil in Hex.
  - simpl. unfold format_step.
    destruct (decide (field_of msg ∈ Object_prototype)) as [Hin|Hout].
    + rewrite (Hown _ Hin). unfold inherited. by rewrite bool_decide_true.
    + apply Exists_cons in Hex as [Hin|Hex]; [done|].
      destruct (errors !! field_of msg) eqn:Hk.
      * apply IH; [|done]. intros k Hk'.
        rewrite lookup_insert_ne by (by intros <-). by apply Hown.
      * unfold inherited. rewrite bool_decide_false by done.
        apply IH; [|done]. intros k Hk'.
        rewrite lookup_insert_ne by (by intros <-). by apply Hown.
Qed.

Lemma formatValidationErrors_crash_iff messages :
  formatValidationErrors messages = TypeError
  ↔ Exists (λ m, field_of m ∈ Object_prototype) messages.
Proof.
  split.
  - intros Hcrash.
    destruct (decide (Exists (λ m, field_of m ∈ Object_prototype) messages))
      as [Hex|Hno]; [done|].
    apply not_Exists_Forall in Hno; [|apply _].
    destruct (format_loop_appends messages ∅ Hno) as (errors & Hloop & _).
    unfold formatValidationErrors in Hcrash. congruence.
  - intros Hex. apply format_loop_crash; [|done]. intros k _.
    apply lookup_empty.
Qed.

(** X13. When the grouping fails.  [formatValidationErrors], on its array
  of strings, dies on a [TypeError] exactly when some message's field name
  is a property inherited from [Object.prototype].  So for a
  [BadRequestException] whose response has an array of strings under
  [message], [catch] sends no response exactly when the array has such a
  message; and an exception that carries no array under [message] is
  always answered. *)
Theorem grouping_crashes_on_inherited_names :
  (∀ messages : list string,
     formatValidationErrors messages = TypeError
     ↔ Exists (λ m, field_of m ∈ Object_prototype) messages)
  ∧ (∀ (items : list string) url now,
       HttpExceptionFilter.catch toISOString
         (BadRequestException (ResponseObject (Some (JsArray items))))
         url now
       = TypeError
       ↔ Exists (λ m, field_of m ∈ Object_prototype) items)
  ∧ (∀ exception url now,
       (∀ items,
          exception
          ≠ BadRequestException (ResponseObject (Some (JsArray items)))) →
       HttpExceptionFilter.catch toISOString exception url now ≠ TypeError).
Proof.
  split; [apply formatValidationErrors_crash_iff|]. split.
  - intros items url now. rewrite <- formatValidationErrors_crash_iff.
    catch_unfold. by destruct (formatValidationErrors items).
  - intros exception url now Hno.
    destruct exception as [[s|[[]|]]|st [s|[msg|]]|code|m|d];
      try (catch_unfold; discriminate).
    by destruct (Hno items).
Qed.

(** X14. The validation case end to end.  For a [BadRequestException]
  whose response has an array of messages, none with an inherited field
  name, [catch] sends status 400, the message "Validation failed" and, as
  [errors], the record that groups the messages by field name; nothing is
  logged.  For the empty array, [errors] is the empty record, not null. *)
Theorem validation_errors_are_sent_grouped items url now :
  Forall (λ m, field_of m ∉ Object_prototype) items →
  ∃ grouped,
    catch' (BadRequestException (ResponseObject (Some (JsArray items))))
           url now
    = Normal (mkSent 400
                (mkBody false 400 (JsString "Validation failed")
                        (Some grouped) (toISOString now) url) [])
    ∧ grouped_by field_of items grouped
    ∧ (items = [] → grouped = ∅).
Proof.
  intros Hall.
  destruct (format_loop_appends items ∅ Hall) as (grouped & Hloop & Hlook).
  exists grouped. split; [|split].
  - catch_unfold. unfold formatValidationErrors. by rewrite Hloop.
  - intros k. rewrite Hlook, lookup_empty. by destruct (List.filter _ items).
  - intros ->. simpl in Hloop. by injection Hloop as <-.
Qed.

(** X15. For any framework exception other than a [BadRequestException],
  the status sent is the exception's own, whatever it is, [errors] is
  null and nothing is logged.  The message is the response itself when it
  is a string; the response's [message] when that is truthy, even when it
  is not a string; and "Error" when the response has no [message] or a
  falsy one, the empty string included. *)
Theorem http_exception_passes_status_and_message st url now :
  (∀ s,
     catch' (HttpException st (ResponseString s)) url now
     = Normal (mkSent st
                 (mkBody false st (JsString s) None (toISOString now) url) []))
  ∧ (∀ m,
       truthy m = true →
       catch' (HttpException st (ResponseObject (Some m))) url now
       = Normal (mkSent st
                   (mkBody false st m None (toISOString now) url) []))
  ∧ (∀ o,
       truthy (default JsUndefined o) = false →
       catch' (HttpException st (ResponseObject o)) url now
       = Normal (mkSent st
                   (mkBody false st (JsString "Error") None
                           (toISOString now) url) [])).
Proof.
  split; [done|]. split.
  - intros m Hm. catch_unfold. by rewrite Hm.
  - intros [m|] Hm; simpl in Hm; catch_unfold; [by rewrite Hm|done].
Qed.

(** X16. A [BadRequestException] whose response object has a [message] that
  is not an array is answered with status 400 and null [errors]; the
  message sent is that [message] when it is a string, the empty string
  included, and "Bad request" for any other value.  With a string
  response or no [message] property it is answered like any other
  framework exception. *)
Theorem bad_request_without_array url now :
  (∀ s,
     HttpExceptionFilter.catch toISOString
       (BadRequestException (ResponseObject (Some (JsString s)))) url now
     = Normal (mkSent 400
                 (mkBody false 400 (JsString s) None (toISOString now) url)
                 []))
  ∧ (∀ m,
       (∀ s, m ≠ JsString s) → (∀ items, m ≠ JsArray items) →
       HttpExceptionFilter.catch toISOString
         (BadRequestException (ResponseObject (Some m))) url now
       = Normal (mkSent 400
                   (mkBody false 400 (JsString "Bad request") None
                           (toISOString now) url) []))
  ∧ (∀ s,
       HttpExceptionFilter.catch toISOString
         (BadRequestException (ResponseString s)) url now
       = HttpExceptionFilter.catch toISOString
           (HttpException 400 (ResponseString s)) url now)
  ∧ HttpExceptionFilter.catch toISOString
      (BadRequestException (ResponseObject None)) url now
    = HttpExceptionFilter.catch toISOString
        (HttpException 400 (ResponseObject None)) url now.
Proof.
  split; [done|]. split; [|done].
  intros m Hstr Harr. destruct m; try done.
  - by destruct (Hstr s).
  - by destruct (Harr items).
Qed.

(** X17. What is not a framework exception and not one of the three mapped
  Prisma codes is answered with the fixed status 500 and "Internal server
  error", whatever text the exception carries, and is logged once; a
  framework exception is never logged, even with status 500. *)
Theorem only_unmapped_errors_are_logged exception url now sent :
  catch' exception url now = Normal sent →
  (is_http exception = true → logged sent = [])
  ∧ (logged sent ≠ [] →
     ∃ line,
       sent = mkSent 500
                (mkBody false 500 (JsString "Internal server error") None
                        (toISOString now) url) [line])
  ∧ (is_http exception = false →
     (∀ code, exception = PrismaClientKnownRequestError code →
              code ∉ ["P2002"; "P2003"; "P2025"]) →
     logged sent ≠ []).
Proof.
  intros Hsent. split; [|split].
  - intros Hhttp.
    destruct exception as [[s|[[]|]]|st [s|[msg|]]|code|m|d]; try done;
      revert Hsent; catch_unfold; try (by intros [= <-]).
    destruct (formatValidationErrors items); [|done]. by intros [= <-].
  - intros Hlog.
    destruct exception as [[s|[[]|]]|st [s|[msg|]]|code|m|d];
      revert Hsent; catch_unfold;
      try (intros [= <-]; (by destruct Hlog) || by eexists).
    destruct (formatValidationErrors items); [|done].
    intros [= <-]. by destruct Hlog.
  - intros Hhttp Hcode.
    destruct exception as [resp|st resp|code|m|d]; try done;
      revert Hsent; catch_unfold; try (by intros [= <-]).
    all: unfold PrismaErrorCode.UNIQUE_CONSTRAINT,
           PrismaErrorCode.FOREIGN_KEY_CONSTRAINT,
           PrismaErrorCode.RECORD_NOT_FOUND in *;
         subst code; destruct (Hcode _ eq_refl); set_solver.
Qed.

Lemma split_nonempty sep (s : string) : split sep s ≠ [].
Proof.
  destruct s as [|c r]; simpl; [done|].
  case_bool_decide; [done|]. by destruct (split sep r).
Qed.

(** X18. [split] and [join] are inverse: joining the pieces of a string
  with the separator gives the string back.  There is always at least one
  piece, one more than the separator occurs, and no piece contains the
  separator. *)
Theorem split_join_round_trip sep (s : string) :
  join sep (split sep s) = s
  ∧ length (split sep s) = S (occurrences sep s)
  ∧ Forall (λ piece, contains sep piece = false) (split sep s).
Proof.
  induction s as [|c r (Hjoin & Hlen & Hall)]; simpl.
  - by repeat constructor.
  - pose proof (split_nonempty sep r) as Hne.
    case_bool_decide as Hc.
    + subst c. split; [|split].
      * destruct (split sep r) as [|p ps] eqn:Hs; [done|].
        simpl. by rewrite <- Hjoin.
      * simpl. by rewrite Hlen.
      * by constructor.
    + destruct (split sep r) as [|p ps] eqn:Hs; [done|].
      apply Forall_cons in Hall as [Hp Hps].
      split; [|split].
      * rewrite <- Hjoin. by destruct ps.
      * done.
      * constructor; [|done]. simpl. by rewrite bool_decide_false.
Qed.

Lemma stored_count_insert_new errors k l :
  errors !! k = None →
  stored_count (<[k := l]> errors) = (length l + stored_count errors)%nat.
Proof.
  intros Hk. unfold stored_count.
  by rewrite (map_to_list_insert errors k l Hk).
Qed.

Lemma stored_count_insert_more errors k l msg :
  errors !! k = Some l →
  stored_count (<[k := (l ++ [msg])%list]> errors) = S (stored_count errors).
Proof.
  intros Hk.
  rewrite <- (insert_delete_eq errors).
  rewrite stored_count_insert_new by apply lookup_delete_eq.
  rewrite <- (insert_delete_id errors k l Hk) at 2.
  rewrite stored_count_insert_new by apply lookup_delete_eq.
  rewrite length_app. simpl. lia.
Qed.

Lemma format_loop_count messages errors errors' :
  format_loop messages errors = Normal errors' →
  stored_count errors' = (stored_count errors + length messages)%nat.
Proof.
  revert errors.
  induction messages as [|msg rest IH]; intros errors; simpl.
  - intros [= <-]. lia.
  - destruct (format_step errors msg) as [errors1|] eqn:Hstep; [|done].
    intros Hrest%IH. rewrite Hrest. unfold format_step in Hstep.
    destruct (errors !! field_of msg) eqn:Hk.
    + injection Hstep as <-. rewrite stored_count_insert_more by done. lia.
    + destruct (inherited (field_of msg)); [done|]. injection Hstep as <-.
      rewrite stored_count_insert_new by done. simpl. lia.
Qed.

(** X19. When the grouping returns, no message is lost, doubled or
  invented: the record holds as many messages as the array had, every
  message of the array is in the list under its own field name, and every
  list of the record is non-empty and holds only messages of the array
  with that field name. *)
Theorem grouping_keeps_every_message messages errors :
  formatValidationErrors messages = Normal errors →
  stored_count errors = length messages
  ∧ (∀ m, m ∈ messages → ∃ l, errors !! field_of m = Some l ∧ m ∈ l)
  ∧ (∀ k l, errors !! k = Some l →
            l ≠ [] ∧ ∀ m, m ∈ l → m ∈ messages ∧ field_of m = k).
Proof.
  intros Hok.
  assert (Forall (λ m, field_of m ∉ Object_prototype) messages) as Hall.
  { apply (not_Exists_Forall (λ m, field_of m ∈ Object_prototype)).
    intros Hex%formatValidationErrors_crash_iff. congruence. }
  destruct (format_loop_appends messages ∅ Hall) as (errors0 & Hloop & Hlook).
  unfold formatValidationErrors in Hok. rewrite Hloop in Hok.
  injection Hok as ->.
  assert (∀ k m, m ∈ List.filter (λ m, bool_decide (field_of m = k)) messages
                 ↔ m ∈ messages ∧ field_of m = k) as Hfilter.
  { intros k m. rewrite !list_elem_of_In, filter_In.
    by rewrite bool_decide_eq_true. }
  split; [|split].
  - apply format_loop_count in Hloop. rewrite Hloop.
    unfold stored_count. by rewrite map_to_list_empty.
  - intros m Hm. specialize (Hlook (field_of m)).
    rewrite lookup_empty in Hlook.
    assert (m ∈ List.filter (λ m', bool_decide (field_of m' = field_of m))
                            messages) as Hin by by apply Hfilter.
    destruct (List.filter _ messages) as [|x l] eqn:Hf.
    + by apply elem_of_nil in Hin.
    + by exists (x :: l).
  - intros k l Hk. rewrite Hlook, lookup_empty in Hk.
    destruct (List.filter _ messages) as [|x l'] eqn:Hf; [done|].
    simpl in Hk. injection Hk as <-. split; [done|].
    intros m Hm. apply Hfilter. by rewrite Hf.
Qed.

End FilterBranches.

(** ** TransformResponseInterceptor: metadata and payload *)

Section InterceptorMetadata.
Import TransformResponseInterceptor.
Variable toISOString : Date → string.
Context {T : Type}.
Implicit Types (context : ExecutionContext) (next : Observable T).

Abbreviation intercept' := (TransformResponseInterceptor.intercept toISOString).
Abbreviation wrap_at := (TransformResponseInterceptor.wrap_at toISOString).

(** X20. The handler's metadata overrides the class's.  The values pass
  through unwrapped exactly when the handler carries [true], or carries
  nothing and the class carries [true]; so a handler that carries [false]
  is wrapped even when its class carries [true]. *)
Theorem handler_metadata_overrides_class context next :
  (handlerMetadata context = Some true
   ∨ (handlerMetadata context = None ∧ classMetadata context = Some true) →
   intercept' context next = pipe_map (λ _ value, Raw value) next)
  ∧ (handlerMetadata context = Some false
     ∨ (handlerMetadata context = None ∧ classMetadata context ≠ Some true) →
     intercept' context next = pipe_map wrap_at next)
  ∧ intercept' (mkContext (Some false) (Some true)) next
    = pipe_map wrap_at next.
Proof.
  unfold TransformResponseInterceptor.intercept. split; [|split; [|done]].
  - intros [-> | [-> ->]]; done.
  - intros [-> | [-> Hc]]; [done|]. simpl.
    destruct (classMetadata context) as [[]|]; done.
Qed.

(** X21. The interceptor adds an envelope or nothing: it emits as many
  values as the handler, at the same moments and in the same order, each
  holding the handler's value untouched; the values are all unwrapped or
  all wrapped, and a wrapped one has [success] true and the timestamp of
  its moment. *)
Theorem intercept_keeps_payload context next :
  List.map (λ te, (te.1, payload te.2)) (intercept' context next) = next
  ∧ length (intercept' context next) = length next
  ∧ (Forall (λ te, ∃ value, te.2 = Raw value) (intercept' context next)
     ∨ Forall (λ te, ∃ value, te.2 = wrap_at te.1 value)
              (intercept' context next)).
Proof.
  assert (∀ f : Date → T → Emitted T,
            (∀ now value, payload (f now value) = value) →
            List.map (λ te, (te.1, payload te.2)) (pipe_map f next) = next)
    as Hpayload.
  { intros f Hf. unfold pipe_map. rewrite List.map_map.
    rewrite <- (List.map_id next) at 2. apply List.map_ext.
    intros [now value]. simpl. by rewrite Hf. }
  assert (∀ (f : Date → T → Emitted T) (P : Date * Emitted T → Prop),
            (∀ now value, P (now, f now value)) →
            Forall P (pipe_map f next)) as Hall.
  { intros f P Hf. unfold pipe_map. apply Forall_forall.
    intros te [[now value] [<- _]]%list_elem_of_In%in_map_iff. apply Hf. }
  unfold TransformResponseInterceptor.intercept.
  destruct (getAllAndOverride _) as [[]|].
  - split; [by apply Hpayload|]. split; [apply length_map|].
    left. apply Hall. by eexists.
  - split; [by apply Hpayload|]. split; [apply length_map|].
    right. apply Hall. by eexists.
  - split; [by apply Hpayload|]. split; [apply length_map|].
    right. apply Hall. by eexists.
Qed.

End InterceptorMetadata.

(** ** configuration *)

Section ConfigurationFacts.
Import Configuration.
Implicit Types (s rest : string) (env : gmap string string).

Lemma strip_shortens s r :
  strip_whitespace_char s = Some r → (String.length r < String.length s)%nat.
Proof.
  unfold strip_whitespace_char.
  destruct s as [|a [|b [|c r3]]]; simpl;
    repeat case_bool_decide; intros [= <-]; simpl; lia.
Qed.

Lemma trim_fuel_enough n m s :
  (String.length s ≤ n)%nat → (String.length s ≤ m)%nat →
  trim_fuel n s = trim_fuel m s.
Proof.
  revert m s. induction n as [|n IH]; intros m s Hn Hm.
  - destruct s; [|simpl in Hn; lia]. by destruct m.
  - destruct m as [|m].
    + destruct s; [done|simpl in Hm; lia].
    + simpl. destruct (strip_whitespace_char s) as [r|] eqn:Hs; [|done].
      apply strip_shortens in Hs. apply IH; lia.
Qed.

Lemma trimStart_strip s r :
  strip_whitespace_char s = Some r → trimStart s = trimStart r.
Proof.
  intros Hs. pose proof (strip_shortens _ _ Hs) as Hlen.
  unfold trimStart. destruct (String.length s) as [|n] eqn:Hn; [lia|].
  simpl. rewrite Hs. apply trim_fuel_enough; lia.
Qed.

Lemma trimStart_id s : strip_whitespace_char s = None → trimStart s = s.
Proof.
  intros Hs. unfold trimStart.
  destruct (String.length s); [done|]. simpl. by rewrite Hs.
Qed.

Lemma strip_none_by_first a r :
  code a ∉ [9; 10; 11; 12; 13; 32; 194; 225; 226; 227; 239]%N →
  strip_whitespace_char (String a r) = None.
Proof.
  intros Ha. unfold strip_whitespace_char.
  assert (∀ x, x ∈ [9; 10; 11; 12; 13; 32; 194; 225; 226; 227; 239]%N →
               code a ≠ x) as Hne by (by intros x Hx <-).
  assert (∀ x, code a = x →
               bool_decide
                 (x ∈ [9; 10; 11; 12; 13; 32; 194; 225; 226; 227; 239]%N)
               = true → False) as Hno.
  { intros x Hx Hin%bool_decide_eq_true. by apply (Hne x). }
  rewrite bool_decide_false.
  2:{ intros Hin.
      repeat (apply elem_of_cons in Hin as [Hx|Hin];
              [by apply (Hno _ Hx)|]).
      by apply elem_of_nil in Hin. }
  destruct r as [|b [|c r3]]; [done| |].
  - rewrite bool_decide_false; [done|]. intros [Hx _]. by apply (Hno _ Hx).
  - rewrite bool_decide_false by (intros [Hx _]; by apply (Hno _ Hx)).
    rewrite bool_decide_false; [done|]. intros Hin.
    repeat (apply elem_of_cons in Hin as [[= Hx _ _]|Hin];
            [by apply (Hno _ Hx)|]).
    by apply elem_of_nil in Hin.
Qed.

(** X22. [parseInt] skips leading white space: a value with a leading
  space, tab, line break, no-break space or other such character parses
  like the value without it. *)
Theorem parseInt10_skips_whitespace s r :
  strip_whitespace_char s = Some r → parseInt10 s = parseInt10 r.
Proof.
  intros Hs. unfold parseInt10. by rewrite (trimStart_strip s r Hs).
Qed.

Lemma digit_of_pretty_char (m : N) :
  (m < 10)%N → digit_of (pretty_N_char m) = Some (Z.of_N m).
Proof.
  intros Hm.
  assert (m = 0 ∨ m = 1 ∨ m = 2 ∨ m = 3 ∨ m = 4 ∨ m = 5 ∨ m = 6 ∨ m = 7
          ∨ m = 8 ∨ m = 9)%N as Hcases by lia.
  by repeat (destruct Hcases as [->|Hcases]; [done|]); subst m.
Qed.

Lemma digit_is_no_whitespace c d :
  digit_of c = Some d →
  (code c ∉ [9; 10; 11; 12; 13; 32; 194; 225; 226; 227; 239]%N)
  ∧ c ≠ "-"%char ∧ c ≠ "+"%char.
Proof.
  intros Hd. split; [|split]; [|by intros ->..].
  unfold digit_of in Hd.
  destruct ((48 <=? Z.of_N (code c))%Z && (Z.of_N (code c) <=? 57)%Z)
    eqn:Hrange; [|done].
  apply andb_true_iff in Hrange as [Hlo%Z.leb_le Hhi%Z.leb_le].
  intros Hin.
  repeat (apply elem_of_cons in Hin as [Hx|Hin]; [rewrite Hx in *; lia|]).
  by apply elem_of_nil in Hin.
Qed.

Lemma leading_digits_no_digit rest :
  starts_with_digit rest = false → leading_digits rest = [].
Proof.
  destruct rest as [|c r]; [done|]. simpl. intros Hc.
  destruct (digit_of c); [|done].
  by rewrite bool_decide_true in Hc by by eexists.
Qed.

Lemma numeral_digits (x : N) s :
  (0 < x)%N →
  ∃ digits,
    digits ≠ []
    ∧ leading_digits (pretty_N_go x s) = (digits ++ leading_digits s)%list
    ∧ ∀ a, fold_left (λ acc d, 10 * acc + d)%Z digits a
           = (a * 10 ^ Z.of_nat (length digits) + Z.of_N x)%Z.
Proof.
  revert s. induction (N.lt_wf_0 x) as [x _ IH]; intros s Hx.
  rewrite pretty_N_go_step by done.
  assert (x `mod` 10 < 10)%N as Hmod by (apply N.mod_lt; lia).
  pose proof (digit_of_pretty_char _ Hmod) as Hd.
  pose proof (N.div_mod x 10 ltac:(lia)) as Hdm.
  destruct (decide (x `div` 10 = 0)%N) as [Hz|Hnz].
  - rewrite Hz, pretty_N_go_0. exists [Z.of_N (x `mod` 10)].
    split; [done|]. split; [simpl; by rewrite Hd|].
    intros a. simpl. lia.
  - destruct (IH (x `div` 10)%N) with
      (s := String (pretty_N_char (x `mod` 10)) s)
      as (digits & Hne & Hlead & Hval).
    { apply N.div_lt; lia. }
    { lia. }
    exists (digits ++ [Z.of_N (x `mod` 10)])%list. split; [|split].
    + by destruct digits.
    + rewrite Hlead. simpl. rewrite Hd. by rewrite <- app_assoc.
    + intros a. rewrite fold_left_app, Hval. simpl.
      rewrite length_app. simpl.
      replace (Z.of_nat (length digits + 1))
        with (Z.of_nat (length digits) + 1)%Z by lia.
      rewrite Z.pow_add_r by lia. lia.
Qed.

Lemma append_assoc' (a b c : string) : (a +:+ b) +:+ c = a +:+ (b +:+ c).
Proof.
  induction a as [|x a IH]; [reflexivity|].
  change (String x ((a +:+ b) +:+ c) = String x (a +:+ (b +:+ c))).
  by rewrite IH.
Qed.

Lemma pretty_go_append (x : N) s :
  pretty_N_go x s = pretty_N_go x EmptyString +:+ s.
Proof.
  revert s. induction (N.lt_wf_0 x) as [x _ IH]; intros s.
  destruct (decide (x = 0)%N) as [->|Hx]; [by rewrite !pretty_N_go_0|].
  assert (x `div` 10 < x)%N as Hlt by (apply N.div_lt; lia).
  rewrite (pretty_N_go_step x s), (pretty_N_go_step x EmptyString) by lia.
  rewrite (IH _ Hlt (String (pretty_N_char (x `mod` 10)) s)).
  rewrite (IH _ Hlt (String (pretty_N_char (x `mod` 10)) EmptyString)).
  by rewrite append_assoc'.
Qed.

Lemma parseInt10_digit_led sg c r d :
  digit_of c = Some d →
  parseInt10 (sign_text sg +:+ String c r)
  = let n := decimal_value (leading_digits (String c r)) in
    if (n <=? 2 ^ 53)%Z then Int (signed sg n)
    else Huge (match sg with Minus => true | _ => false end).
Proof.
  intros Hd. destruct (digit_is_no_whitespace c d Hd) as (Hws & Hminus & Hplus).
  assert (leading_digits (String c r) = d :: leading_digits r) as Hlead
    by (simpl; by rewrite Hd).
  unfold parseInt10. destruct sg.
  - change (sign_text NoSign +:+ String c r) with (String c r).
    rewrite trimStart_id by by apply strip_none_by_first.
    rewrite !bool_decide_false by done. rewrite Hlead. simpl.
    by destruct (_ <=? _)%Z.
  - change (sign_text Plus +:+ String c r) with (String "+" (String c r)).
    rewrite trimStart_id
      by (apply strip_none_by_first; by apply (bool_decide_unpack _)).
    rewrite bool_decide_false by done. rewrite bool_decide_true by done.
    rewrite Hlead. simpl. by destruct (_ <=? _)%Z.
  - change (sign_text Minus +:+ String c r) with (String "-" (String c r)).
    rewrite trimStart_id
      by (apply strip_none_by_first; by apply (bool_decide_unpack _)).
    rewrite bool_decide_true by done.
    rewrite Hlead. simpl. by destruct (_ <=? _)%Z.
Qed.

Lemma leading_digits_cons s d l :
  leading_digits s = d :: l → ∃ c r, s = String c r ∧ digit_of c = Some d.
Proof.
  destruct s as [|c r]; [done|]. simpl.
  destruct (digit_of c) as [d'|] eqn:Hd; [|done].
  intros [= <- _]. by exists c, r.
Qed.

Lemma numeral_zero_parses sg rest :
  starts_with_digit rest = false →
  parseInt10 (sign_text sg +:+ pretty 0%N +:+ rest) = Int 0.
Proof.
  intros Hrest%leading_digits_no_digit.
  change (pretty 0%N +:+ rest) with (String "0" rest).
  rewrite (parseInt10_digit_led sg "0" rest 0) by done.
  simpl. rewrite Hrest. by destruct sg.
Qed.

Lemma numeral_positive_parses sg (n : N) rest :
  (0 < n)%N → (Z.of_N n ≤ 2 ^ 53)%Z →
  starts_with_digit rest = false →
  parseInt10 (sign_text sg +:+ pretty n +:+ rest)
  = Int (signed sg (Z.of_N n)).
Proof.
  intros Hpos Hn Hrest%leading_digits_no_digit.
  assert (pretty n +:+ rest = pretty_N_go n rest) as ->.
  { unfold pretty, pretty_N. rewrite decide_False by lia.
    by rewrite (pretty_go_append n rest). }
  destruct (numeral_digits n rest Hpos) as (digits & Hne & Hlead & Hval).
  rewrite Hrest, app_nil_r in Hlead.
  destruct digits as [|d l]; [done|].
  destruct (leading_digits_cons _ _ _ Hlead) as (c & r & Hs & Hd).
  rewrite Hs, (parseInt10_digit_led sg c r d Hd). cbv zeta.
  rewrite <- Hs, Hlead. unfold decimal_value.
  rewrite Hval, Z.mul_0_l, Z.add_0_l.
  by rewrite (proj2 (Z.leb_le _ _) Hn).
Qed.

(** X23. [parseInt] reads a decimal numeral back: for every integer [n] up
  to 2^53, the numeral of [n], with or without a sign in front, and
  followed by nothing or by any text that does not begin with a digit,
  parses to [n], negated after a minus sign. *)
Theorem parseInt10_reads_numeral sg (n : N) rest :
  (Z.of_N n ≤ 2 ^ 53)%Z →
  starts_with_digit rest = false →
  parseInt10 (sign_text sg +:+ pretty n +:+ rest)
  = Int (signed sg (Z.of_N n)).
Proof.
  intros Hn Hrest.
  destruct (decide (n = 0)%N) as [->|Hpos].
  - rewrite numeral_zero_parses by done. by destruct sg.
  - apply numeral_positive_parses; [lia|done|done].
Qed.

(** X24. The port is not range-checked.  When PORT holds the numeral of an
  integer [n] up to 2^53, signed or not, followed by nothing or by text
  that does not begin with a digit, the configured port is [n] itself,
  negated after a minus sign: negative ports and ports above 65535 pass.
  Only zero is replaced, by 3000. *)
Theorem port_is_not_range_checked env sg (n : N) rest :
  env !! "PORT" = Some (sign_text sg +:+ pretty n +:+ rest) →
  (Z.of_N n ≤ 2 ^ 53)%Z →
  starts_with_digit rest = false →
  port (configuration env)
  = if decide (n = 0%N) then Int 3000 else Int (signed sg (Z.of_N n)).
Proof.
  intros Henv Hn Hrest. unfold configuration. simpl. rewrite Henv. simpl.
  case_decide as Hz.
  - subst n. by rewrite numeral_zero_parses.
  - rewrite numeral_positive_parses by (done || lia).
    unfold or_number, num_truthy.
    assert (signed sg (Z.of_N n) ≠ 0)%Z as Hnz by (destruct sg; simpl; lia).
    by rewrite (proj2 (Z.eqb_neq _ _) Hnz).
Qed.

(** X25. With PORT, NODE_ENV and the two JWT expirations each unset or
  empty, the configuration is the defaults: port 3000, "development",
  3600 and 604800; the database url and the JWT secret are whatever the
  environment holds, unset included. *)
Theorem configuration_defaults env :
  (∀ name,
     name ∈ ["PORT"; "NODE_ENV"; "JWT_ACCESS_EXPIRATION";
             "JWT_REFRESH_EXPIRATION"] →
     env !! name = None ∨ env !! name = Some EmptyString) →
  configuration env
  = mkConfig (Int 3000) "development" (env !! "DATABASE_URL")
             (env !! "JWT_SECRET") (Int 3600) (Int 604800).
Proof.
  intros Hunset. unfold configuration.
  destruct (Hunset "PORT" ltac:(by apply (bool_decide_unpack _)))
    as [-> | ->];
  destruct (Hunset "NODE_ENV" ltac:(by apply (bool_decide_unpack _)))
    as [-> | ->];
  destruct (Hunset "JWT_ACCESS_EXPIRATION"
              ltac:(by apply (bool_decide_unpack _))) as [-> | ->];
  destruct (Hunset "JWT_REFRESH_EXPIRATION"
              ltac:(by apply (bool_decide_unpack _))) as [-> | ->];
  reflexivity.
Qed.

(** X26. Whatever the environment holds, the configured port and the two
  expirations are never [NaN] and never zero, and the node environment is
  never the empty string. *)
Theorem configuration_is_never_falsy env :
  num_truthy (port (configuration env)) = true
  ∧ num_truthy (jwt_accessExpiration (configuration env)) = true
  ∧ num_truthy (jwt_refreshExpiration (configuration env)) = true
  ∧ nodeEnv (configuration env) ≠ EmptyString.
Proof.
  assert (∀ x d, d ≠ 0%Z → num_truthy (or_number x d) = true) as Hor.
  { intros x d Hd. unfold or_number.
    destruct (num_truthy x) eqn:Hx; [done|]. simpl.
    by rewrite (proj2 (Z.eqb_neq _ _) Hd). }
  unfold configuration; simpl. repeat split; try by apply Hor.
  destruct (env !! "NODE_ENV") as [v|]; [|done]. by case_bool_decide.
Qed.

End ConfigurationFacts.

(** * The further properties at sample inputs *)

Section MoreWitnesses.
Import Samples.

Lemma one_user_unique : UserService.unique_active_email one_user.
Proof.
  intros i j r s Hi Hj _ _ _. unfold one_user in *.
  apply lookup_singleton_Some in Hi as [<- _].
  by apply lookup_singleton_Some in Hj as [<- _].
Qed.

Lemma ann_upper_is_free :
  ¬ UserService.email_taken (CreateUserDto.email ann_upper) one_user.
Proof.
  intros (i & r & Hl & Ha & He). unfold one_user in Hl.
  apply lookup_singleton_Some in Hl as [_ <-]. discriminate He.
Qed.

Lemma findByEmail_agrees_with_create_witness :
  UserService.findByEmail "ann@example.com" one_user
  = (Ok (Some ("0", ann_row)), one_user).
Proof.
  apply (proj2 (proj2 (findByEmail_agrees_with_create toy_hash
                         "ann@example.com" one_user)));
    [apply one_user_unique|reflexivity..].
Defined.

Lemma create_then_read_back_witness :
  ∃ u tbl',
    UserService.create toy_hash "salt1" ann_upper one_user = (Ok u, tbl')
    ∧ UserService.findById (User.id u) tbl' = (Ok u, tbl')
    ∧ UserService.findByEmail "ANN@example.com" tbl' = (Ok (Some u), tbl')
    ∧ ∃ l, UserService.findAll tbl' = (Ok l, tbl') ∧ u ∈ l.
Proof.
  apply (create_then_read_back toy_hash "salt1" ann_upper one_user).
  apply ann_upper_is_free.
Defined.

Lemma update_merges_patch_witness :
  ∃ tbl',
    UserService.update "0" rename one_user
    = (Ok ("0", User.mk "Anna" "Lee" "ann@example.com" "$2b$salt0$password1"
                        None), tbl')
    ∧ dom tbl' = dom one_user.
Proof.
  destruct (update_merges_patch one_user "0" ann_row rename)
    as (tbl' & Hup & _ & _ & Hdom & _); [reflexivity..|].
  exists tbl'. split; [exact Hup|exact Hdom].
Defined.

Lemma update_stores_password_verbatim_witness :
  ∃ u tbl',
    UserService.update "0" (UpdateUserDto.mk None None None (Some "hunter22"))
                       one_user
    = (Ok u, tbl')
    ∧ User.password (User.cols u) = "hunter22"
    ∧ ∃ v, UserService.findById "0" tbl' = (Ok v, tbl')
           ∧ User.password (User.cols v) = "hunter22".
Proof.
  apply (update_stores_password_verbatim one_user "0" ann_row); reflexivity.
Defined.

Lemma removed_id_is_not_found_witness :
  ∃ tbl',
    UserService.remove 2000%Z "0" one_user = (Ok tt, tbl')
    ∧ UserService.findById "0" tbl'
      = (Throw (NotFoundException "User was not found"), tbl').
Proof.
  destruct (removed_id_is_not_found one_user "0" ann_row 2000%Z)
    as (tbl' & Hrm & Hfind & _); [reflexivity..|].
  exists tbl'. split; [exact Hrm|exact Hfind].
Defined.

Lemma email_free_after_remove_witness :
  ∃ tbl' i tbl'',
    UserService.remove 2000%Z "0" one_user = (Ok tt, tbl')
    ∧ UserService.create toy_hash "salt1" ann tbl'
      = (Ok (i, UserService.created_row toy_hash "salt1" ann), tbl'')
    ∧ i ≠ "0"
    ∧ tbl'' !! "0" = Some (UserService.soft_deleted 2000%Z ann_row)
    ∧ tbl'' !! i = Some (UserService.created_row toy_hash "salt1" ann).
Proof.
  apply (email_free_after_remove toy_hash one_user "0" ann_row 2000%Z
           "salt1" ann);
    [apply one_user_unique|reflexivity..].
Defined.

Lemma throwing_call_writes_nothing_witness :
  UserService.exec toy_hash (UserService.CallCreate "salt1" ann) one_user
  = one_user.
Proof.
  apply (throwing_call_writes_nothing toy_hash
           (UserService.CallCreate "salt1" ann) one_user
           (ConflictException "Email already exists")).
  by vm_compute.
Defined.

Lemma findAll_follows_writes_witness :
  [("0", ann_row)] ≡ₚ ("0", ann_row) :: ([] : list User.t).
Proof.
  apply (proj2 (findAll_follows_writes toy_hash one_user [("0", ann_row)]
                  ltac:(by vm_compute))
           2000%Z "0" ann_row
           (<["0" := UserService.soft_deleted 2000%Z ann_row]> one_user) []);
    [reflexivity|by vm_compute|by vm_compute].
Defined.

Lemma update_keeps_invariant_when_email_is_free_witness :
  UserService.unique_active_email
    (UserService.update "0"
       (UpdateUserDto.mk None None (Some "anna@example.com") None)
       one_user).2.
Proof.
  apply update_keeps_invariant_when_email_is_free; [apply one_user_unique|].
  intros e _ j s Hj _ _. unfold one_user in Hj.
  by apply lookup_singleton_Some in Hj as [<- _].
Defined.

Lemma sent_body_is_consistent_witness :
  ∃ sent,
    HttpExceptionFilter.catch toy_iso
      (HttpExceptionFilter.PrismaClientKnownRequestError "P2025") "/users/7"
      0%Z
    = HttpExceptionFilter.Normal sent
    ∧ HttpExceptionFilter.statusCode (HttpExceptionFilter.body sent)
      = HttpExceptionFilter.status sent
    ∧ HttpExceptionFilter.path (HttpExceptionFilter.body sent) = "/users/7".
Proof.
  eexists. split; [reflexivity|].
  destruct (sent_body_is_consistent toy_iso
              (HttpExceptionFilter.PrismaClientKnownRequestError "P2025")
              "/users/7" 0%Z _ eq_refl) as (_ & Hst & Hpath & _).
  split; [exact Hst|exact Hpath].
Defined.

Lemma validation_errors_are_sent_grouped_witness :
  ∃ grouped,
    HttpExceptionFilter.catch toy_iso
      (HttpExceptionFilter.BadRequestException
         (HttpExceptionFilter.ResponseObject (Some (JsArray []))))
      "/users" 0%Z
    = HttpExceptionFilter.Normal
        (HttpExceptionFilter.mkSent 400
           (HttpExceptionFilter.mkBody false 400 (JsString "Validation failed")
              (Some grouped) (toy_iso 0%Z) "/users") [])
    ∧ grouped = ∅.
Proof.
  destruct (validation_errors_are_sent_grouped toy_iso [] "/users" 0%Z)
    as (grouped & Hsent & _ & Hempty); [constructor|].
  exists grouped. split; [exact Hsent|by apply Hempty].
Defined.

Lemma http_exception_passes_status_and_message_witness :
  HttpExceptionFilter.catch toy_iso
    (HttpExceptionFilter.HttpException 404
       (HttpExceptionFilter.ResponseObject
          (Some (JsString "User was not found")))) "/users/7" 0%Z
  = HttpExceptionFilter.catch toy_iso
      (HttpExceptionFilter.HttpException 404
         (HttpExceptionFilter.ResponseString "User was not found"))
      "/users/7" 0%Z
  ∧ HttpExceptionFilter.catch toy_iso
      (HttpExceptionFilter.HttpException 403
         (HttpExceptionFilter.ResponseObject (Some (JsString EmptyString))))
      "/users/7" 0%Z
    = HttpExceptionFilter.Normal
        (HttpExceptionFilter.mkSent 403
           (HttpExceptionFilter.mkBody false 403 (JsString "Error") None
              (toy_iso 0%Z) "/users/7") []).
Proof.
  destruct (http_exception_passes_status_and_message toy_iso 404 "/users/7"
              0%Z) as (Hstr & Hobj & _).
  destruct (http_exception_passes_status_and_message toy_iso 403 "/users/7"
              0%Z) as (_ & _ & Hfalsy).
  split.
  - rewrite Hstr. apply Hobj. reflexivity.
  - apply (Hfalsy (Some (JsString EmptyString))). reflexivity.
Defined.

Lemma bad_request_without_array_witness :
  HttpExceptionFilter.catch toy_iso
    (HttpExceptionFilter.BadRequestException
       (HttpExceptionFilter.ResponseObject (Some (JsNumber 7)))) "/cart" 0%Z
  = HttpExceptionFilter.Normal
      (HttpExceptionFilter.mkSent 400
         (HttpExceptionFilter.mkBody false 400 (JsString "Bad request") None
            (toy_iso 0%Z) "/cart") []).
Proof.
  apply (proj1 (proj2 (bad_request_without_array toy_iso "/cart" 0%Z)));
    discriminate.
Defined.

Lemma only_unmapped_errors_are_logged_witness :
  ∃ sent,
    HttpExceptionFilter.catch toy_iso
      (HttpExceptionFilter.OtherError "TypeError: x is undefined") "/users"
      0%Z
    = HttpExceptionFilter.Normal sent
    ∧ HttpExceptionFilter.logged sent ≠ [].
Proof.
  eexists. split; [reflexivity|].
  apply (proj2 (proj2 (only_unmapped_errors_are_logged toy_iso
                         (HttpExceptionFilter.OtherError
                            "TypeError: x is undefined")
                         "/users" 0%Z _ eq_refl)));
    [reflexivity|discriminate].
Defined.

Lemma grouping_keeps_every_message_witness :
  ∃ errors,
    HttpExceptionFilter.formatValidationErrors
      ["email must be an email"; "email should not be empty"]
    = HttpExceptionFilter.Normal errors
    ∧ HttpExceptionFilter.stored_count errors = 2.
Proof.
  eexists. split; [by vm_compute|].
  apply (grouping_keeps_every_message
           ["email must be an email"; "email should not be empty"]).
  by vm_compute.
Defined.

Lemma handler_metadata_overrides_class_witness :
  TransformResponseInterceptor.intercept toy_iso
    (TransformResponseInterceptor.mkContext None (Some true)) [(0%Z, JsNull)]
  = [(0%Z, TransformResponseInterceptor.Raw JsNull)].
Proof.
  apply (proj1 (handler_metadata_overrides_class toy_iso
                  (TransformResponseInterceptor.mkContext None (Some true))
                  [(0%Z, JsNull)])).
  right. split; reflexivity.
Defined.

Lemma parseInt10_skips_whitespace_witness :
  Configuration.parseInt10 " 8080" = Configuration.parseInt10 "8080".
Proof. apply parseInt10_skips_whitespace. reflexivity. Defined.

Lemma parseInt10_reads_numeral_witness :
  Configuration.parseInt10
    (Configuration.sign_text Configuration.Minus +:+ pretty 8080%N +:+ "px")
  = Configuration.Int (-8080).
Proof.
  apply (parseInt10_reads_numeral Configuration.Minus 8080%N "px");
    [by vm_compute|reflexivity].
Defined.

Lemma port_is_not_range_checked_witness :
  Configuration.port (Configuration.configuration {[ "PORT" := "-70000" ]})
  = Configuration.Int (-70000).
Proof.
  apply (port_is_not_range_checked {[ "PORT" := "-70000" ]}
           Configuration.Minus 70000%N EmptyString);
    [by vm_compute|by vm_compute|reflexivity].
Defined.

Lemma configuration_defaults_witness :
  Configuration.configuration {[ "PORT" := EmptyString;
                                 "JWT_SECRET" := "s3cret" ]}
  = Configuration.mkConfig (Configuration.Int 3000) "development" None
      (Some "s3cret") (Configuration.Int 3600) (Configuration.Int 604800).
Proof.
  rewrite (configuration_defaults {[ "PORT" := EmptyString;
                                     "JWT_SECRET" := "s3cret" ]});
    [by vm_compute|].
  intros name Hname.
  repeat (apply elem_of_cons in Hname as [->|Hname];
          [(by left) || (by right)|]).
  by apply elem_of_nil in Hname.
Defined.

Lemma grouping_crashes_on_inherited_names_witness :
  HttpExceptionFilter.catch toy_iso
    (HttpExceptionFilter.HttpException 409
       (HttpExceptionFilter.ResponseObject
          (Some (JsString "Email already exists")))) "/users" 0%Z
  ≠ HttpExceptionFilter.TypeError.
Proof.
  apply (proj2 (proj2 (grouping_crashes_on_inherited_names toy_iso))).
  discriminate.
Defined.

End MoreWitnesses.

(** * The invariant, over the table with its constraint *)

Section UniqueEmailFacts.
Variable bcrypt_hash : string → N → string → string.
Implicit Types (tbl : Table) (r s : User.columns) (i j id : string).

Lemma clashes_true i r tbl :
  UniqueEmail.clashes i r tbl = true
  ↔ User.deletedAt r = None
    ∧ ∃ j s, tbl !! j = Some s ∧ j ≠ i ∧ User.deletedAt s = None
             ∧ User.email s = User.email r.
Proof.
  unfold UniqueEmail.clashes.
  rewrite andb_true_iff, bool_decide_eq_true, existsb_exists. split.
  - intros [Hr ([j s] & Hin & Hf)]. split; [done|].
    apply list_elem_of_In, elem_of_map_to_list in Hin.
    apply andb_true_iff in Hf as [Hf He%bool_decide_eq_true].
    apply andb_true_iff in Hf as [Hj%bool_decide_eq_true Hs%bool_decide_eq_true].
    by exists j, s.
  - intros [Hr (j & s & Hl & Hj & Hs & He)]. split; [done|].
    exists (j, s). split.
    + by apply list_elem_of_In, elem_of_map_to_list.
    + unfold User.id, User.cols; simpl.
      by rewrite !bool_decide_true by done.
Qed.







Lemma no_clash_when_free salt dto tbl :
  ¬ UserService.email_taken (CreateUserDto.email dto) tbl →
  UniqueEmail.clashes (fresh (dom tbl))
    (UserService.created_row bcrypt_hash salt dto) tbl = false.
Proof.
  intros Hfree. destruct (UniqueEmail.clashes _ _ tbl) eqn:Hc; [|done].
  apply clashes_true in Hc as [_ (j & s & Hl & _ & Ha & He)].
  destruct Hfree. by exists j, s.
Qed.

(** Where the constraint bites.  [create] and [remove] never meet it: over
  the table with the constraint they do what they do over the table
  without.  [update] meets it exactly when the patched row would clash:
  the ORM's unique-constraint error is thrown and nothing is written;
  otherwise [update] too does what it does without the constraint. *)
Theorem constraint_bites_only_update tbl :
  (∀ salt dto,
     ConstrainedUserService.create bcrypt_hash salt dto tbl
     = UserService.create bcrypt_hash salt dto tbl)
  ∧ (∀ now id,
       ConstrainedUserService.remove now id tbl
       = UserService.remove now id tbl)
  ∧ (∀ id dto,
       ConstrainedUserService.update id dto tbl
       = match UserService.update id dto tbl with
         | (Ok u, tbl') =>
             if UniqueEmail.clashes (User.id u) (User.cols u) tbl
             then (Throw (PrismaClientKnownRequestError "P2002"), tbl)
             else (Ok u, tbl')
         | (Throw e, tbl') => (Throw e, tbl')
         end).
Proof.
  split; [|split].
  - intros salt dto.
    destruct (email_taken_dec (CreateUserDto.email dto) tbl) as [Ht|Hfree].
    + rewrite create_taken by done.
      unfold ConstrainedUserService.create, await, Prisma.findFirst.
      destruct (List.find _ _) as [u|] eqn:Hf; [done|].
      destruct Ht as (i & r & Hl & Ha & He).
      pose proof (find_rows_None _ _ _ _ Hf Hl) as Hm.
      assert (Prisma.matches
                (Prisma.mkWhere None (Some (CreateUserDto.email dto))
                   (Some None)) (i, r) = true) as Hyes
        by by apply matches_by_email.
      congruence.
    + rewrite create_free by done.
      unfold ConstrainedUserService.create, await, Prisma.findFirst.
      destruct (List.find _ _) as [[j s]|] eqn:Hf.
      * apply find_rows_Some in Hf as [Hl [He Hd]%matches_by_email].
        destruct Hfree. by exists j, s.
      * unfold UniqueEmail.create, UniqueEmail.checked, Prisma.create.
        pose proof (no_clash_when_free salt dto tbl Hfree) as Hno.
        unfold UserService.created_row in Hno.
        unfold User.id, User.cols; simpl. by rewrite Hno.
  - intros now id.
    unfold ConstrainedUserService.remove, UserService.remove, await,
      Prisma.findFirst.
    destruct (List.find _ _); [|done].
    unfold UniqueEmail.update, UniqueEmail.checked.
    destruct (Prisma.update _ _ tbl) as [[[j s]|e] tbl'] eqn:Hup; [|done].
    assert (UniqueEmail.clashes j s tbl = false) as Hno.
    { unfold Prisma.update in Hup. simpl in Hup.
      destruct (tbl !! id) as [r|]; [|done].
      destruct (Prisma.matches _ _); [|done].
      injection Hup as <- <- _. unfold UniqueEmail.clashes. simpl.
      first [done | by rewrite bool_decide_false]. }
    unfold User.id, User.cols; simpl. by rewrite Hno.
  - intros id dto.
    unfold ConstrainedUserService.update, UserService.update, await,
      Prisma.findFirst.
    by destruct (List.find _ _).
Qed.

(** The patch that clashes, over the table with the constraint: the calls
  that end with two holders of one email over the plain table end here
  with the unique-constraint error, and the patch is not written. *)
Lemma constrained_update_refuses_clash :
  ConstrainedUserService.update "1"
    (UpdateUserDto.mk None None (Some "ann@example.com") None)
    (ConstrainedUserService.run bcrypt_hash
       (take 2 UserService.email_clash_calls) ∅)
  = (Throw (PrismaClientKnownRequestError "P2002"),
     ConstrainedUserService.run bcrypt_hash
       (take 2 UserService.email_clash_calls) ∅).
Proof. by vm_compute. Qed.

End UniqueEmailFacts.
